(** * hmpo-config: the configuration store of [lib/config.js]

    A shallow embedding of the [Config] class (file cache, format dispatch,
    deep merge of fragments, snapshot) and the properties of its
    specification.

    Layout: JavaScript values; the host environment (Node's [path], [fs],
    the JSON5 and js-yaml parsers, [vm]); the store monad; the methods of
    [Config] in source order of dependency; lemmas; the specification's
    properties. *)

From Stdlib Require Import Ascii.
From stdpp Require Import gmap strings list fin_maps.

Set Warnings "-register-all,-notation-for-abbreviation".
Local Open Scope string_scope.

(** ** JavaScript values *)

(** What the store asks of a JavaScript number is its truthiness
    ([0], [-0] and [NaN] are falsy); finite numbers are kept as integers. *)
Inductive number :=
| Finite (z : Z)
| NaN
| Infinity (negative : bool).

(** The values a parser can produce.  An object is a finite map from
    property names to values. *)
Inductive value :=
| VUndefined
| VNull
| VBool (b : bool)
| VNum (n : number)
| VStr (s : string)
| VArr (l : list value)
| VObj (m : gmap string value).

Definition is_object (v : value) : bool :=
  match v with VObj _ => true | _ => false end.

Definition number_truthy (n : number) : bool :=
  match n with
  | Finite z => negb (z =? 0)%Z
  | NaN => false
  | Infinity _ => true
  end.

(** ToBoolean: [undefined], [null], [false], [0], [NaN] and the empty string
    are falsy, every array and every object (the empty one too) is truthy. *)
Definition truthy (v : value) : bool :=
  match v with
  | VUndefined | VNull => false
  | VBool b => b
  | VNum n => number_truthy n
  | VStr s => negb (String.eqb s "")
  | VArr _ | VObj _ => true
  end.

(** [v[k]] for a value held in an object's slot, and [undefined] for an
    absent slot. *)
Definition slot_value (o : option value) : value := default VUndefined o.

(** The value found by following a key path through nested objects. *)
Fixpoint lookup_path (v : value) (p : list string) : option value :=
  match p with
  | [] => Some v
  | k :: r =>
    match v with
    | VObj m => m !! k ≫= fun v' => lookup_path v' r
    | _ => None
    end
  end.

(** ** The deep merge *)

(** Modelled from the spec: [extend] of the npm package [deep-clone-merge]
    ([deepMergeExtend] in [lib/config.js]) is a dependency whose source is not
    part of the repository.  Following the specification's words: key paths
    of the fragment override matching paths of the destination,
    object-valued keys merge recursively, array- and scalar-valued keys
    replace, keys of the destination the fragment does not have are kept.
    Cloning is the identity on immutable values.  For a fragment that is
    not an object the specification's words give no rule; the clause that
    returns the destination only makes the function total, and the
    properties of sequences of adders below are stated for fragments that
    are objects. *)
Fixpoint deepMergeExtend (dest src : value) {struct src} : value :=
  match src with
  | VObj sm =>
    match dest with
    | VObj dm =>
      VObj (map_imap (fun k sv =>
                        Some (match dm !! k, sv with
                              | Some (VObj _ as dv), VObj _ => deepMergeExtend dv sv
                              | _, _ => sv
                              end)) sm ∪ dm)
    | _ => dest
    end
  | _ => dest
  end.

(** The value [deepMergeExtend] leaves in a slot that held [od] when the
    fragment has [sv] there. *)
Definition merge_slot (od : option value) (sv : value) : value :=
  match od, sv with
  | Some (VObj _ as dv), VObj _ => deepMergeExtend dv sv
  | _, _ => sv
  end.

(** A measure for induction through the nested maps. *)
Fixpoint vsize (v : value) : nat :=
  match v with
  | VObj m => S (map_fold (fun _ v' acc => (vsize v' + acc)%nat) 0%nat m)
  | _ => 1%nat
  end.

(** ** Errors, the disk and the host environment *)

(** A thrown [Error]: its [message] and the [fileName] that [loadFile]
    attaches. *)
Record error := Error { message : string; fileName : option string }.

Inductive outcome (A : Type) :=
| Ok (a : A)
| Throw (e : error).
Arguments Ok {A} a.
Arguments Throw {A} e.

(** A path of the disk: a readable text file, or something that exists and
    cannot be read as text (a directory, a file without permission). *)
Inductive entry :=
| File (content : string)
| Unreadable (e : error).

Notation disk := (gmap string entry).

(** The two [fs] calls of [loadFile]. *)
Inductive io_event :=
| ExistsSync (path : string)
| ReadFileSync (path : string).

(** The dependencies of [lib/config.js] that are not code of the repository:
    [app-root-path], Node's [path.resolve] and [path.extname], [JSON5.parse],
    [yaml.load] and [vm.runInNewContext] (which mutates the properties of
    its context object and may throw). *)
Record Runtime := {
  appRootPath : string;
  resolve : string -> string -> string;
  extname : string -> string;
  JSON5_parse : string -> outcome value;
  yaml_load : string -> outcome value;
  runInNewContext :
    string -> gmap string value -> gmap string value * option error
}.

(** ** The store *)

(** The instance fields: [this.appRoot], [this.fileCache] and [this.config]
    ([undefined] until the first [addX]). *)
Record Config := {
  appRoot : string;
  fileCache : gmap string value;
  config : value
}.

(** A method call returns or throws, leaves a store behind, and has made a
    sequence of disk accesses. *)
Record result (A : Type) := Result {
  outcome_of : outcome A;
  store_of : Config;
  io_of : list io_event
}.
Arguments Result {A} _ _ _.
Arguments outcome_of {A} _.
Arguments store_of {A} _.
Arguments io_of {A} _.

Definition M (A : Type) : Type := Config -> result A.

Definition ret {A} (a : A) : M A := fun s => Result (Ok a) s [].

Definition throw {A} (e : error) : M A := fun s => Result (Throw e) s [].

Definition bind {A B} (m : M A) (f : A -> M B) : M B := fun s =>
  let r := m s in
  match outcome_of r with
  | Ok a =>
    let r' := f a (store_of r) in
    Result (outcome_of r') (store_of r') (io_of r ++ io_of r')
  | Throw e => Result (Throw e) (store_of r) (io_of r)
  end.

(** [try { m } catch (err) { h err }] *)
Definition try_catch {A} (m : M A) (h : error -> M A) : M A := fun s =>
  let r := m s in
  match outcome_of r with
  | Ok _ => r
  | Throw e =>
    let r' := h e (store_of r) in
    Result (outcome_of r') (store_of r') (io_of r ++ io_of r')
  end.

Definition this : M Config := fun s => Result (Ok s) s [].

Definition lift {A} (o : outcome A) : M A := fun s => Result o s [].

Notation "'let!' x ':=' m 'in' k" := (bind m (fun x => k))
  (at level 10, x name, m at level 100, k at level 200).
Notation "m '>>' k" := (bind m (fun _ => k))
  (at level 65, right associativity).

(** [this.fileCache[path] = data] *)
Definition set_fileCache (path : string) (data : value) : M unit := fun s =>
  Result (Ok tt)
         {| appRoot := appRoot s;
            fileCache := <[path := data]> (fileCache s);
            config := config s |} [].

(** [this.config = v] *)
Definition set_config (v : value) : M unit := fun s =>
  Result (Ok tt)
         {| appRoot := appRoot s; fileCache := fileCache s; config := v |} [].

Definition existsSync (fs : disk) (path : string) : M bool := fun s =>
  Result (Ok (match fs !! path with Some _ => true | None => false end))
         s [ExistsSync path].

Definition ENOENT (path : string) : error :=
  {| message := "ENOENT: no such file or directory, open '" ++ path ++ "'";
     fileName := None |}.

Definition readFileSync (fs : disk) (path : string) : M string := fun s =>
  Result (match fs !! path with
          | Some (File content) => Ok content
          | Some (Unreadable e) => Throw e
          | None => Throw (ENOENT path)
          end) s [ReadFileSync path].

(** [v.k] for the two properties [getDefaults] reads.  Reading a property
    of [undefined] or [null] throws a TypeError; on an object it is the own
    property or [undefined]; strings, numbers, booleans and arrays have no
    property called [name] or [version]. *)
Definition getProp (v : value) (k : string) : outcome value :=
  match v with
  | VUndefined =>
    Throw {| message := "Cannot read properties of undefined (reading '"
                          ++ k ++ "')";
             fileName := None |}
  | VNull =>
    Throw {| message := "Cannot read properties of null (reading '"
                          ++ k ++ "')";
             fileName := None |}
  | VObj m => Ok (slot_value (m !! k))
  | _ => Ok VUndefined
  end.

Section Methods.

Variable rt : Runtime.

(** [constructor(appRoot)]: [appRoot || appRootPath.toString()], an empty
    cache, [config] not set. *)
Definition new_Config (root : option string) : Config :=
  {| appRoot := match root with
                | Some r => if truthy (VStr r) then r else appRootPath rt
                | None => appRootPath rt
                end;
     fileCache := ∅;
     config := VUndefined |}.

(** [parseFile(content, ext)]; [ext] is [None] when the argument is not
    passed. *)
Definition parseFile (content : string) (ext : option string)
  : outcome value :=
  match ext with
  | Some ".yaml" | Some ".yml" => yaml_load rt content
  | _ => JSON5_parse rt content
  end.

(** The [catch] block of [loadFile]: the error gets the path as
    [fileName] and in front of its message. *)
Definition loadError (path : string) (err : error) : error :=
  {| message := "Error loading config " ++ path ++ ": " ++ message err;
     fileName := Some path |}.

(** [loadFile(path)] *)
Definition loadFile (fs : disk) (path : string) : M value :=
  let! s := this in
  let path := resolve rt (appRoot s) path in
  let data := slot_value (fileCache s !! path) in
  if truthy data then ret data
  else
    let! found := existsSync fs path in
    if negb found then set_fileCache path (VObj ∅) >> ret (VObj ∅)
    else
      try_catch
        (let! content := readFileSync fs path in
         let ext := extname rt path in
         let! data := lift (parseFile content (Some ext)) in
         set_fileCache path data >> ret data)
        (fun err => throw (loadError path err)).

(** [getPackage()] *)
Definition getPackage (fs : disk) : M value := loadFile fs "package.json".

(** [getDefaults()]; the properties are evaluated in the order written.
    The name and the version are the cached package's own values: when one
    of them is an object or an array, the defaults, and the accumulated
    state seeded from them, share it with the cache.  Values here are
    trees, so the properties below that compare a later load with an
    earlier one ask for a name and a version that are neither. *)
Definition getDefaults (fs : disk) : M value :=
  let! p1 := getPackage fs in
  let! name := lift (getProp p1 "name") in
  let! p2 := getPackage fs in
  let! version := lift (getProp p2 "version") in
  let! s := this in
  ret (VObj (<["APP_NAME" := name]>
             (<["APP_VERSION" := version]>
              {["APP_ROOT" := VStr (appRoot s)]}))).

(** [toJSON()]: [this.config || this.getDefaults()] *)
Definition toJSON (fs : disk) : M value :=
  let! s := this in
  if truthy (config s) then ret (config s) else getDefaults fs.

(** [addConfig(config)] *)
Definition addConfig (fs : disk) (c : value) : M unit :=
  let! d := toJSON fs in
  set_config (deepMergeExtend d c).

(** [addFile(path)] *)
Definition addFile (fs : disk) (path : string) : M unit :=
  let! c := loadFile fs path in
  addConfig fs c.

(** [addString(str)]: [parseFile] is called with one argument. *)
Definition addString (fs : disk) (str : string) : M unit :=
  let! c := lift (parseFile str None) in
  addConfig fs c.

(** [addScript(str)]: the context object is [this.config] itself, so what
    the script did to it before throwing stays. *)
Definition addScript (fs : disk) (str : string) : M unit :=
  let! c := toJSON fs in
  set_config c >>
  match c with
  | VObj m =>
    let (m', err) := runInNewContext rt str m in
    set_config (VObj m') >>
    match err with
    | Some e => throw e
    | None => ret tt
    end
  | _ =>
    throw {| message := "The 'contextObject' argument must be of type object";
             fileName := None |}
  end.

(** *** Sequences of calls *)

(** The public methods that touch the store; a caller may catch what one
    of them throws and go on with the store as it was left. *)
Inductive method :=
| MAddFile (path : string)
| MAddString (str : string)
| MAddScript (str : string)
| MAddConfig (c : value)
| MGetPackage
| MGetDefaults
| MLoadFile (path : string)
| MToJSON.

Definition invoke (fs : disk) (m : method) (s : Config) : Config :=
  match m with
  | MAddFile path => store_of (addFile fs path s)
  | MAddString str => store_of (addString fs str s)
  | MAddScript str => store_of (addScript fs str s)
  | MAddConfig c => store_of (addConfig fs c s)
  | MGetPackage => store_of (getPackage fs s)
  | MGetDefaults => store_of (getDefaults fs s)
  | MLoadFile path => store_of (loadFile fs path s)
  | MToJSON => store_of (toJSON fs s)
  end.

(** Calls made one after the other, each with the disk as it is then. *)
Fixpoint invoke_all (calls : list (disk * method)) (s : Config) : Config :=
  match calls with
  | [] => s
  | (fs, m) :: rest => invoke_all rest (invoke fs m s)
  end.

(** The three calls that merge a fragment. *)
Inductive add_call :=
| AddConfig (c : value)
| AddFile (path : string)
| AddString (str : string).

Definition call_add (fs : disk) (c : add_call) : M unit :=
  match c with
  | AddConfig v => addConfig fs v
  | AddFile path => addFile fs path
  | AddString str => addString fs str
  end.

(** The fragment a call merges. *)
Definition fragment (fs : disk) (c : add_call) : M value :=
  match c with
  | AddConfig v => ret v
  | AddFile path => loadFile fs path
  | AddString str => lift (parseFile str None)
  end.

(** [call_add], returning the fragment it merged. *)
Definition add (fs : disk) (c : add_call) : M value :=
  let! f := fragment fs c in
  addConfig fs f >> ret f.

Fixpoint add_all (fs : disk) (cs : list add_call) : M (list value) :=
  match cs with
  | [] => ret []
  | c :: rest =>
    let! f := add fs c in
    let! fs' := add_all fs rest in
    ret (f :: fs')
  end.

(** The calls of the source, one after the other, stopping at a throw. *)
Fixpoint call_all (fs : disk) (cs : list add_call) : M unit :=
  match cs with
  | [] => ret tt
  | c :: rest => call_add fs c >> call_all fs rest
  end.

(** *** Auxiliary notions for the statements *)

(** What a load of a resolved path yields when the cache does not serve
    it. *)
Definition loadFromDisk (fs : disk) (path : string) : outcome value :=
  match fs !! path with
  | None => Ok (VObj ∅)
  | Some (File content) =>
    match parseFile content (Some (extname rt path)) with
    | Ok v => Ok v
    | Throw e => Throw (loadError path e)
    end
  | Some (Unreadable e) => Throw (loadError path e)
  end.

(** Every cached value is what the disk [fs] gives for its path. *)
Definition cache_agrees (fs : disk) (s : Config) : Prop :=
  forall path v, fileCache s !! path = Some v -> loadFromDisk fs path = Ok v.

(** The disk accesses of such a load. *)
Definition disk_io (fs : disk) (path : string) : list io_event :=
  ExistsSync path ::
  match fs !! path with
  | Some _ => [ReadFileSync path]
  | None => []
  end.

(** How a call may change the store: the root stays, a truthy cached
    value stays, and agreement of the cache with the call's disk stays. *)
Definition evolves (fs : disk) (s s' : Config) : Prop :=
  appRoot s' = appRoot s /\
  (forall path v, fileCache s !! path = Some v -> truthy v = true ->
                  fileCache s' !! path = Some v) /\
  (cache_agrees fs s -> cache_agrees fs s').

(** The same for a call that only loads. *)
Definition reads (fs : disk) (s s' : Config) : Prop :=
  evolves fs s s' /\ config s' = config s.


(** [addString] as the specification words it, with a format hint that
    selects the parser. *)
Definition addString_hinted (fs : disk) (str : string) (hint : option string)
  : M unit :=
  let! c := lift (parseFile str hint) in
  addConfig fs c.

End Methods.

Arguments parseFile : simpl never.
Arguments loadFile : simpl never.
Arguments getPackage : simpl never.
Arguments getDefaults : simpl never.
Arguments toJSON : simpl never.
Arguments addConfig : simpl never.

(** Every run of [m] relates the store before to the store after. *)
Definition preserves {A} (R : Config -> Config -> Prop) (m : M A) : Prop :=
  forall s, R s (store_of (m s)).

Definition has_key (k : string) (v : value) : bool :=
  match v with
  | VObj m => match m !! k with Some _ => true | None => false end
  | _ => false
  end.

Definition default_keys : list string := ["APP_NAME"; "APP_VERSION"; "APP_ROOT"].

Definition lacks_default_keys (v : value) : bool :=
  forallb (fun k => negb (has_key k v)) default_keys.

(** ** Statements of the specification that the code does not satisfy
       as worded *)

(** A missing file: [addFile] returns and the snapshot is what it was. *)
Definition missing_file_claim (rt : Runtime) (fs : disk) (p : string)
           (s : Config) : Prop :=
  fs !! resolve rt (appRoot s) p = None ->
  outcome_of (addFile rt fs p s) = Ok tt /\
  outcome_of (toJSON rt fs (store_of (addFile rt fs p s)))
  = outcome_of (toJSON rt fs s).

(** An existing file that its parser rejects: [addFile] throws the parser's
    error with the resolved path, and the store is what it was. *)
Definition malformed_file_claim (rt : Runtime) (fs : disk) (p : string)
           (s : Config) : Prop :=
  forall content e,
    fs !! resolve rt (appRoot s) p = Some (File content) ->
    parseFile rt content (Some (extname rt (resolve rt (appRoot s) p)))
    = Throw e ->
    outcome_of (addFile rt fs p s)
    = Throw (loadError (resolve rt (appRoot s) p) e) /\
    store_of (addFile rt fs p s) = s.

(** A YAML file and a JSON file with the same parsed value: [addFile] of
    the one and of the other give the same accumulated configuration. *)
Definition yaml_json_claim (rt : Runtime) (fs : disk) (p1 p2 : string)
           (s : Config) : Prop :=
  forall c1 c2 v,
    extname rt (resolve rt (appRoot s) p1) = ".yaml" ->
    extname rt (resolve rt (appRoot s) p2) = ".json" ->
    fs !! resolve rt (appRoot s) p1 = Some (File c1) ->
    fs !! resolve rt (appRoot s) p2 = Some (File c2) ->
    yaml_load rt c1 = Ok v ->
    JSON5_parse rt c2 = Ok v ->
    config (store_of (addFile rt fs p1 s))
    = config (store_of (addFile rt fs p2 s)).

(** [addString] dispatches on the hint it is given. *)
Definition addString_hint_claim (rt : Runtime) (fs : disk) (str : string)
           (hint : option string) (s : Config) : Prop :=
  addString rt fs str s = addString_hinted rt fs str hint s.

(** A second [addFile] of the same path changes nothing and reads nothing. *)
Definition addFile_twice_claim (rt : Runtime) (fs : disk) (p : string)
           (s : Config) : Prop :=
  let r1 := addFile rt fs p s in
  let r2 := addFile rt fs p (store_of r1) in
  config (store_of r2) = config (store_of r1) /\ io_of r2 = [].

(** ** A concrete host for examples *)

Module Sample.

(** [path.resolve] on a relative or absolute path without dot segments. *)
Definition resolve (root p : string) : string :=
  match p with
  | String "/"%char _ => p
  | _ => root ++ "/" ++ p
  end.

Fixpoint last_ext (p : string) : option string :=
  match p with
  | EmptyString => None
  | String c r =>
    match last_ext r with
    | Some e => Some e
    | None => if Ascii.eqb c "."%char then Some p else None
    end
  end.

(** [path.extname] on a path whose directories have no dot. *)
Definition extname (p : string) : string := default "" (last_ext p).

Fixpoint table (rows : list (string * outcome value)) (other : outcome value)
         (content : string) : outcome value :=
  match rows with
  | [] => other
  | (c, o) :: rest => if String.eqb c content then o else table rest other content
  end.

Definition syntax_error (msg : string) : outcome value :=
  Throw {| message := msg; fileName := None |}.

Definition pkg : value :=
  VObj (<["name" := VStr "shop"]> {["version" := VStr "1.2.3"]}).

Definition port_5433 : value := VObj {["port" := VNum (Finite 5433)]}.

(** [JSON5.parse] on the texts the examples use. *)
Definition JSON5_parse : string -> outcome value :=
  table [ ("{ name: 'shop', version: '1.2.3' }", Ok pkg);
          ("{ port: 5433 }", Ok port_5433);
          ("{oops", syntax_error "JSON5: invalid end of input at 1:6");
          ("port: 5433", syntax_error "JSON5: invalid character 'p' at 1:1") ]
        (syntax_error "JSON5: invalid end of input at 1:1").

(** [yaml.load] on the texts the examples use; the empty document loads
    as [undefined]. *)
Definition yaml_load : string -> outcome value :=
  table [ ("", Ok VUndefined);
          ("port: 5433", Ok port_5433) ]
        (syntax_error "end of the stream or a document separator is expected").

(** A script that leaves its context alone. *)
Definition runInNewContext (script : string) (ctx : gmap string value)
  : gmap string value * option error := (ctx, None).

Definition rt : Runtime :=
  Build_Runtime "/srv" resolve extname JSON5_parse yaml_load runInNewContext.

(** A project directory with its package metadata and two equivalent
    fragments. *)
Definition app_disk : disk :=
  <["/app/package.json" := File "{ name: 'shop', version: '1.2.3' }"]>
  (<["/app/a.yaml" := File "port: 5433"]>
   {["/app/a.json" := File "{ port: 5433 }"]}).

(** The same with a fragment that is not JSON5 and an empty YAML file. *)
Definition bad_disk : disk :=
  <["/app/bad.json" := File "{oops"]>
  (<["/app/empty.yaml" := File ""]> app_disk).

(** A project whose package metadata does not parse. *)
Definition broken_pkg_disk : disk :=
  {["/app/package.json" := File "{oops"]}.

Definition fresh : Config := new_Config rt (Some "/app").

(** The defaults of [fresh] on [app_disk]. *)
Definition defaults : gmap string value :=
  <["APP_NAME" := VStr "shop"]>
  (<["APP_VERSION" := VStr "1.2.3"]> {["APP_ROOT" := VStr "/app"]}).

(** The fragments of the specification's example scenario. *)
Definition db_first : gmap string value :=
  {["db" := VObj (<["host" := VStr "localhost"]>
                  {["port" := VNum (Finite 5432)]})]}.

Definition db_second : gmap string value :=
  {["db" := VObj {["port" := VNum (Finite 5433)]}]}.

Definition db_merged : value :=
  VObj (<["host" := VStr "localhost"]> {["port" := VNum (Finite 5433)]}).

End Sample.

(** ** Further notions and examples *)

(** No cached path is forgotten, and the root stays. *)
Definition keeps_entries (s s' : Config) : Prop :=
  appRoot s' = appRoot s /\
  forall path, is_Some (fileCache s !! path) -> is_Some (fileCache s' !! path).

(** Under the disk [fs], every load returns or throws on [s'] what it
    does on [s]. *)
Definition same_loads (rt : Runtime) (fs : disk) (s s' : Config) : Prop :=
  appRoot s' = appRoot s /\
  forall q, outcome_of (loadFile rt fs q s') = outcome_of (loadFile rt fs q s).

(** A value that no assignment can change in place. *)
Definition is_primitive (v : value) : bool :=
  match v with
  | VObj _ | VArr _ => false
  | _ => true
  end.

(** Every fragment that the calls merge is an object. *)
Fixpoint merges_objects (rt : Runtime) (calls : list (disk * method))
         (s : Config) : Prop :=
  match calls with
  | [] => True
  | (fs, m) :: rest =>
    match m with
    | MAddConfig c => is_object c = true
    | MAddFile path =>
      forall v, outcome_of (loadFile rt fs path s) = Ok v -> is_object v = true
    | MAddString str =>
      forall v, parseFile rt str None = Ok v -> is_object v = true
    | _ => True
    end /\ merges_objects rt rest (invoke rt fs m s)
  end.

(** [this.config] is not set, or is an object. *)
Definition config_unset_or_object (s : Config) : Prop :=
  config s = VUndefined \/ is_object (config s) = true.

Module More.

(** [JSON5.parse], also on the text [null]. *)
Definition JSON5_parse (content : string) : outcome value :=
  if String.eqb content "null" then Ok VNull else Sample.JSON5_parse content.

Definition boom : error :=
  {| message := "boom is not defined"; fileName := None |}.

(** [vm.runInNewContext] on the script [port = 8080; boom()], which assigns
    and then throws; any other script leaves the context alone. *)
Definition runInNewContext (script : string) (ctx : gmap string value)
  : gmap string value * option error :=
  if String.eqb script "port = 8080; boom()"
  then (<["port" := VNum (Finite 8080)]> ctx, Some boom)
  else (ctx, None).

Definition rt : Runtime :=
  Build_Runtime "/srv" Sample.resolve Sample.extname JSON5_parse
                Sample.yaml_load runInNewContext.

Definition EISDIR : error :=
  {| message := "EISDIR: illegal operation on a directory, read";
     fileName := None |}.

(** A project with a directory where a fragment is expected, and a fragment
    whose extension is in upper case. *)
Definition odd_disk : disk :=
  <["/app/conf.json" := Unreadable EISDIR]>
  (<["/app/A.YAML" := File "{ port: 5433 }"]> Sample.app_disk).

(** A project without package metadata. *)
Definition no_pkg_disk : disk := {["/app/a.yaml" := File "port: 5433"]}.

(** A project whose package metadata is the text [null]. *)
Definition null_pkg_disk : disk := {["/app/package.json" := File "null"]}.

(** A store that looked for [bad.json] when there was no such file. *)
Definition looked_for_bad_json : Config :=
  store_of (loadFile Sample.rt Sample.app_disk "bad.json" Sample.fresh).

(** A store that looked for [a.yaml] when there was no such file. *)
Definition looked_for_a_yaml : Config :=
  store_of (loadFile Sample.rt Sample.broken_pkg_disk "a.yaml" Sample.fresh).

(** A store that loaded [a.json] when the file was there. *)
Definition loaded_a_json : Config :=
  store_of (loadFile Sample.rt Sample.app_disk "a.json" Sample.fresh).

End More.

(** * Lemmas *)

(** ** The store monad *)

Section Preserves.

Context (R : Config -> Config -> Prop) `{!PreOrder R}.

Lemma preserves_ret {A} (a : A) : preserves R (ret a).
Proof. intros s. reflexivity. Qed.

Lemma preserves_throw {A} (e : error) : preserves R (@throw A e).
Proof. intros s. reflexivity. Qed.

Lemma preserves_lift {A} (o : outcome A) : preserves R (lift o).
Proof. intros s. reflexivity. Qed.

Lemma preserves_this : preserves R this.
Proof. intros s. reflexivity. Qed.

Lemma preserves_existsSync fs path : preserves R (existsSync fs path).
Proof. intros s. reflexivity. Qed.

Lemma preserves_readFileSync fs path : preserves R (readFileSync fs path).
Proof. intros s. reflexivity. Qed.

Lemma preserves_bind {A B} (m : M A) (f : A -> M B) :
  preserves R m -> (forall a, preserves R (f a)) -> preserves R (bind m f).
Proof.
  intros Hm Hf s. unfold bind. specialize (Hm s).
  destruct (outcome_of (m s)) as [a|e]; simpl; [|done].
  etrans; [exact Hm|apply Hf].
Qed.

Lemma preserves_try_catch {A} (m : M A) (h : error -> M A) :
  preserves R m -> (forall e, preserves R (h e)) ->
  preserves R (try_catch m h).
Proof.
  intros Hm Hh s. unfold try_catch. specialize (Hm s).
  destruct (outcome_of (m s)) as [a|e]; simpl; [done|].
  etrans; [exact Hm|apply Hh].
Qed.

End Preserves.

Lemma bind_ok {A B} (m : M A) (f : A -> M B) s a :
  outcome_of (m s) = Ok a ->
  bind m f s = Result (outcome_of (f a (store_of (m s))))
                      (store_of (f a (store_of (m s))))
                      (io_of (m s) ++ io_of (f a (store_of (m s)))).
Proof. intros Hm. unfold bind. by rewrite Hm. Qed.

Lemma bind_throw {A B} (m : M A) (f : A -> M B) s e :
  outcome_of (m s) = Throw e ->
  bind m f s = Result (Throw e) (store_of (m s)) (io_of (m s)).
Proof. intros Hm. unfold bind. by rewrite Hm. Qed.

Lemma result_eta {A} (r : result A) :
  r = Result (outcome_of r) (store_of r) (io_of r).
Proof. by destruct r. Qed.

Lemma bind_ret {A B} (a : A) (f : A -> M B) s : bind (ret a) f s = f a s.
Proof. unfold bind, ret. simpl. by destruct (f a s). Qed.

Lemma bind_lift_ok {A B} (a : A) (f : A -> M B) s :
  bind (lift (Ok a)) f s = f a s.
Proof. unfold bind, lift. simpl. by destruct (f a s). Qed.

Lemma bind_lift_throw {A B} (e : error) (f : A -> M B) s :
  bind (lift (Throw e)) f s = Result (Throw e) s [].
Proof. reflexivity. Qed.

Lemma bind_this {B} (f : Config -> M B) s : bind this f s = f s s.
Proof. unfold bind, this. simpl. by destruct (f s s). Qed.

(** ** Induction on values through their object maps *)

Lemma vsize_lookup (m : gmap string value) k v :
  m !! k = Some v -> (vsize v < vsize (VObj m))%nat.
Proof.
  intros Hk. simpl.
  rewrite (map_fold_delete_L _ _ k v m); [lia | intros; lia | done].
Qed.

Lemma value_object_ind (P : value -> Prop) :
  (forall v, is_object v = false -> P v) ->
  (forall m : gmap string value, map_Forall (fun _ v => P v) m -> P (VObj m)) ->
  forall v, P v.
Proof.
  intros Hleaf Hobj v.
  remember (vsize v) as n eqn:Hn. revert v Hn.
  induction (lt_wf n) as [n _ IH]. intros v ->.
  destruct v; try (by apply Hleaf).
  apply Hobj. intros k v Hk.
  apply (IH (vsize v)); [by eapply vsize_lookup | done].
Qed.

(** ** The deep merge *)

Lemma deepMergeExtend_objects (dm sm : gmap string value) :
  deepMergeExtend (VObj dm) (VObj sm)
  = VObj (map_imap (fun k sv => Some (merge_slot (dm !! k) sv)) sm ∪ dm).
Proof. reflexivity. Qed.

Lemma lookup_merged (dm sm : gmap string value) k :
  (map_imap (fun k sv => Some (merge_slot (dm !! k) sv)) sm ∪ dm) !! k
  = match sm !! k with
    | Some sv => Some (merge_slot (dm !! k) sv)
    | None => dm !! k
    end.
Proof.
  rewrite lookup_union, map_lookup_imap.
  destruct (sm !! k) as [sv|]; simpl.
  - by destruct (dm !! k).
  - by rewrite (left_id None _).
Qed.

Lemma deepMergeExtend_not_object d src :
  is_object src = false -> deepMergeExtend d src = d.
Proof. by destruct src. Qed.

Lemma deepMergeExtend_empty d : deepMergeExtend d (VObj ∅) = d.
Proof.
  destruct d; try done.
  rewrite deepMergeExtend_objects, map_imap_empty. by rewrite (left_id ∅ _).
Qed.

Lemma deepMergeExtend_truthy d src :
  truthy d = true -> truthy (deepMergeExtend d src) = true.
Proof. destruct src; try done. by destruct d. Qed.

Lemma deepMergeExtend_is_object d src :
  is_object d = true -> is_object (deepMergeExtend d src) = true.
Proof. destruct src; try done. by destruct d. Qed.

Lemma merge_slot_not_object od sv :
  is_object sv = false -> merge_slot od sv = sv.
Proof. destruct od as [[]|], sv; done. Qed.

Lemma merge_slot_is_object od sv :
  is_object sv = true -> is_object (merge_slot od sv) = true.
Proof. destruct od as [[]|], sv; done. Qed.

(** Merging an object into itself changes nothing. *)
Lemma deepMergeExtend_self v : deepMergeExtend v v = v.
Proof.
  induction v as [v Hv|m IH] using value_object_ind.
  - by apply deepMergeExtend_not_object.
  - rewrite deepMergeExtend_objects. f_equal. apply map_eq. intros k.
    rewrite lookup_merged. destruct (m !! k) as [v|] eqn:Hk; [|done].
    f_equal. pose proof (IH k v Hk) as Hself. simpl in Hself.
    destruct v; done.
Qed.

(** Merging the same fragment a second time changes nothing. *)
Lemma deepMergeExtend_idempotent src :
  forall d, deepMergeExtend (deepMergeExtend d src) src = deepMergeExtend d src.
Proof.
  induction src as [v Hv|sm IH] using value_object_ind; intros d.
  - by rewrite !deepMergeExtend_not_object.
  - destruct d as [| | | | | |dm]; try done.
    rewrite !deepMergeExtend_objects. f_equal. apply map_eq. intros k.
    rewrite !lookup_merged. destruct (sm !! k) as [sv|] eqn:Hk; [|done].
    f_equal. pose proof (IH k sv Hk) as Hidem.
    destruct (is_object sv) eqn:Hsv.
    + destruct sv as [| | | | | |m']; try done.
      destruct (dm !! k) as [[| | | | | |dv]|]; cbn [merge_slot];
        try apply (deepMergeExtend_self (VObj m')).
      pose proof (deepMergeExtend_is_object (VObj dv) (VObj m') eq_refl) as Ho.
      destruct (deepMergeExtend (VObj dv) (VObj m')) eqn:Hm; try done.
      cbn [merge_slot]. rewrite <- Hm. apply Hidem.
    + by rewrite !merge_slot_not_object.
Qed.

(** A key that an object fragment does not have keeps the destination's
    value. *)
Lemma deepMergeExtend_keeps_key (dm sm : gmap string value) k :
  sm !! k = None ->
  exists m, deepMergeExtend (VObj dm) (VObj sm) = VObj m /\ m !! k = dm !! k.
Proof.
  intros Hk. eexists. split; [apply deepMergeExtend_objects|].
  by rewrite lookup_merged, Hk.
Qed.

(** At a key path of the fragment the merge has what [merge_slot] makes of
    the destination's value there and the fragment's. *)
Lemma deepMergeExtend_path p :
  forall dm src b,
    p <> [] ->
    lookup_path src p = Some b ->
    lookup_path (deepMergeExtend (VObj dm) src) p
    = Some (merge_slot (lookup_path (VObj dm) p) b).
Proof.
  induction p as [|k r IH]; intros dm src b Hne Hp; [done|].
  destruct src as [| | | | | |sm]; try done.
  rewrite deepMergeExtend_objects. simpl in *. rewrite lookup_merged.
  destruct (sm !! k) as [sv|]; [simpl in *|done].
  destruct r as [|k' r'].
  - simpl in *. injection Hp as ->. by destruct (dm !! k).
  - destruct sv as [| | | | | |m']; try done.
    destruct (dm !! k) as [[| | | | | |dv]|]; try exact Hp.
    by apply IH.
Qed.

(** A value the fragment has at a key path, when it is not an object, is the
    value of the merge at that path. *)
Lemma deepMergeExtend_path_leaf p :
  forall dm src b,
    p <> [] ->
    lookup_path src p = Some b -> is_object b = false ->
    lookup_path (deepMergeExtend (VObj dm) src) p = Some b.
Proof.
  induction p as [|k r IH]; intros dm src b Hne Hp Hb; [done|].
  - destruct src as [| | | | | |sm]; try done.
    rewrite deepMergeExtend_objects. simpl in *. rewrite lookup_merged.
    destruct (sm !! k) as [sv|]; [simpl in *|done].
    destruct r as [|k' r'].
    + simpl in *. injection Hp as ->. by rewrite merge_slot_not_object.
    + destruct sv as [| | | | | |m']; try done.
      destruct (dm !! k) as [[| | | | | |dv]|]; try exact Hp.
      by apply IH.
Qed.

(** A value of the destination at a key path that the fragment does not
    have, and that lies under no non-object value of the fragment, is kept. *)
Lemma deepMergeExtend_path_keep p :
  forall d src a,
    lookup_path d p = Some a ->
    lookup_path src p = None ->
    (forall q b, q `prefix_of` p -> lookup_path src q = Some b ->
                 is_object b = true) ->
    lookup_path (deepMergeExtend d src) p = Some a.
Proof.
  induction p as [|k r IH]; intros d src a Hd Hs Hpre; [done|].
  destruct d as [| | | | | |dm]; try done.
  destruct src as [| | | | | |sm]; try done.
  rewrite deepMergeExtend_objects. simpl in *. rewrite lookup_merged.
  destruct (sm !! k) as [sv|] eqn:Hk; [simpl in *|done].
  destruct (dm !! k) as [dv|]; [simpl in *|done].
  assert (is_object sv = true) as Hsv.
  { apply (Hpre [k]); [by apply prefix_cons, prefix_nil|].
    simpl. by rewrite Hk. }
  destruct sv as [| | | | | |m']; try done.
  destruct dv as [| | | | | |dv]; try (by destruct r).
  apply IH; [done..|].
  intros q b Hq Hb. apply (Hpre (k :: q)); [by apply prefix_cons|].
  simpl. by rewrite Hk.
Qed.

(** ** The methods of the store *)

Section Store.

Variable rt : Runtime.

#[global] Instance evolves_preorder fs : PreOrder (evolves rt fs).
Proof.
  split.
  - intros s. by repeat split.
  - intros s1 s2 s3 (Hr1 & Hc1 & Ha1) (Hr2 & Hc2 & Ha2).
    split; [congruence|]. split; [|by auto].
    intros path v Hv Ht. apply Hc2; [by apply Hc1|done].
Qed.

#[global] Instance reads_preorder fs : PreOrder (reads rt fs).
Proof.
  split.
  - intros s. split; reflexivity.
  - intros s1 s2 s3 [He1 Hc1] [He2 Hc2].
    split; [by etrans|congruence].
Qed.

Lemma reads_evolves fs s s' : reads rt fs s s' -> evolves rt fs s s'.
Proof. by intros [? _]. Qed.

(** *** [loadFile] *)

(** Served from the cache: no disk access, no change. *)
Lemma loadFile_hit fs p s :
  truthy (slot_value (fileCache s !! resolve rt (appRoot s) p)) = true ->
  loadFile rt fs p s
  = Result (Ok (slot_value (fileCache s !! resolve rt (appRoot s) p))) s [].
Proof. intros Hhit. unfold loadFile, bind, this. simpl. by rewrite Hhit. Qed.

(** Not served from the cache: the disk decides, and a value is cached. *)
Lemma loadFile_miss fs p s :
  truthy (slot_value (fileCache s !! resolve rt (appRoot s) p)) = false ->
  loadFile rt fs p s
  = match loadFromDisk rt fs (resolve rt (appRoot s) p) with
    | Ok v =>
      Result (Ok v)
             (store_of (set_fileCache (resolve rt (appRoot s) p) v s))
             (disk_io fs (resolve rt (appRoot s) p))
    | Throw e => Result (Throw e) s (disk_io fs (resolve rt (appRoot s) p))
    end.
Proof.
  intros Hmiss.
  unfold loadFile, bind, this, try_catch, existsSync, readFileSync,
    loadFromDisk, disk_io, lift.
  simpl. rewrite Hmiss. simpl.
  destruct (fs !! resolve rt (appRoot s) p) as [[content|e]|]; simpl; try done.
  by destruct (parseFile rt content _).
Qed.

Lemma loadFile_reads fs p : preserves (reads rt fs) (loadFile rt fs p).
Proof.
  intros s.
  destruct (truthy (slot_value (fileCache s !! resolve rt (appRoot s) p)))
    eqn:Hc.
  - rewrite loadFile_hit by done. reflexivity.
  - rewrite loadFile_miss by done.
    destruct (loadFromDisk rt fs _) as [v|e] eqn:Hd; simpl; [|reflexivity].
    repeat split; simpl.
    + intros path w Hw Ht.
      rewrite lookup_insert_ne; [done|]. intros <-.
      rewrite Hw in Hc. simpl in Hc. congruence.
    + intros Hag path w. simpl.
      rewrite lookup_insert. case_decide as Hp.
      * intros [= <-]. by subst.
      * apply Hag.
Qed.

(** On a store whose cache agrees with the disk, the cache is invisible
    in what [loadFile] returns. *)
Lemma loadFile_agrees fs p s :
  cache_agrees rt fs s ->
  outcome_of (loadFile rt fs p s)
  = loadFromDisk rt fs (resolve rt (appRoot s) p).
Proof.
  intros Hag.
  destruct (truthy (slot_value (fileCache s !! resolve rt (appRoot s) p)))
    eqn:Hc.
  - rewrite loadFile_hit by done. simpl.
    destruct (fileCache s !! _) as [v|] eqn:Hv; [|done].
    symmetry. by apply Hag.
  - rewrite loadFile_miss by done. by destruct (loadFromDisk rt fs _).
Qed.

(** A load that returned returns the same value when repeated at once,
    and leaves the store as the first one did. *)
Lemma loadFile_again fs p s v :
  outcome_of (loadFile rt fs p s) = Ok v ->
  outcome_of (loadFile rt fs p (store_of (loadFile rt fs p s))) = Ok v /\
  store_of (loadFile rt fs p (store_of (loadFile rt fs p s)))
  = store_of (loadFile rt fs p s).
Proof.
  destruct (truthy (slot_value (fileCache s !! resolve rt (appRoot s) p)))
    eqn:Hc.
  - rewrite !loadFile_hit by done. simpl. intros Hv.
    rewrite ?loadFile_hit by done. done.
  - rewrite loadFile_miss by done.
    destruct (loadFromDisk rt fs _) as [w|e] eqn:Hd; [|done].
    cbn [outcome_of store_of]. intros [= ->].
    set (s1 := store_of (set_fileCache (resolve rt (appRoot s) p) v s)).
    assert (fileCache s1 !! resolve rt (appRoot s1) p = Some v) as Hs1
      by apply lookup_insert_eq.
    destruct (truthy v) eqn:Hv.
    + rewrite loadFile_hit; rewrite Hs1; done.
    + rewrite loadFile_miss by (by rewrite Hs1).
      change (appRoot s1) with (appRoot s). rewrite Hd.
      split; [done|]. cbn [store_of]. unfold s1, set_fileCache. simpl.
      f_equal. apply insert_insert_eq.
Qed.

(** *** [getPackage], [getDefaults], [toJSON] *)

Lemma getPackage_reads fs : preserves (reads rt fs) (getPackage rt fs).
Proof. apply loadFile_reads. Qed.

Lemma getDefaults_reads fs : preserves (reads rt fs) (getDefaults rt fs).
Proof.
  unfold getDefaults.
  apply preserves_bind; [apply _|apply getPackage_reads|intros p1].
  apply preserves_bind; [apply _|apply preserves_lift, _|intros name].
  apply preserves_bind; [apply _|apply getPackage_reads|intros p2].
  apply preserves_bind; [apply _|apply preserves_lift, _|intros version].
  apply preserves_bind; [apply _|apply preserves_this, _|intros s'].
  apply preserves_ret, _.
Qed.

Lemma toJSON_set fs s :
  truthy (config s) = true -> toJSON rt fs s = Result (Ok (config s)) s [].
Proof. intros Hc. unfold toJSON, bind, this. simpl. by rewrite Hc. Qed.

Lemma toJSON_unset fs s :
  truthy (config s) = false -> toJSON rt fs s = getDefaults rt fs s.
Proof.
  intros Hc. unfold toJSON, bind, this. simpl. rewrite Hc.
  by destruct (getDefaults rt fs s).
Qed.

Lemma toJSON_reads fs : preserves (reads rt fs) (toJSON rt fs).
Proof.
  intros s. destruct (truthy (config s)) eqn:Hc.
  - rewrite toJSON_set by done. reflexivity.
  - rewrite toJSON_unset by done. apply getDefaults_reads.
Qed.

(** [getDefaults] in terms of what [getPackage] returns. *)
Lemma getDefaults_outcome fs s pkg :
  outcome_of (getPackage rt fs s) = Ok pkg ->
  outcome_of (getDefaults rt fs s)
  = match getProp pkg "name" with
    | Throw e => Throw e
    | Ok name =>
      match getProp pkg "version" with
      | Throw e => Throw e
      | Ok version =>
        Ok (VObj (<["APP_NAME" := name]>
                  (<["APP_VERSION" := version]>
                   {["APP_ROOT" := VStr (appRoot s)]})))
      end
    end.
Proof.
  intros Hpkg.
  destruct (loadFile_again fs "package.json" s pkg Hpkg) as [Hagain Hstore].
  destruct (getPackage_reads fs s) as [[Hroot _] _].
  unfold getDefaults. rewrite (bind_ok _ _ _ _ Hpkg). cbn [outcome_of].
  destruct (getProp pkg "name") as [name|e];
    [rewrite bind_lift_ok|by rewrite bind_lift_throw].
  unfold getPackage in *. rewrite (bind_ok _ _ _ _ Hagain). cbn [outcome_of].
  destruct (getProp pkg "version") as [version|e];
    [rewrite bind_lift_ok|by rewrite bind_lift_throw].
  rewrite bind_this. unfold ret. cbn [outcome_of].
  by rewrite Hstore, Hroot.
Qed.

Lemma getDefaults_throw fs s e :
  outcome_of (getPackage rt fs s) = Throw e ->
  outcome_of (getDefaults rt fs s) = Throw e.
Proof. intros Hpkg. unfold getDefaults, bind. by rewrite Hpkg. Qed.

(** What [getDefaults] returns is an object with exactly the three
    keys. *)
Lemma getDefaults_object fs s d :
  outcome_of (getDefaults rt fs s) = Ok d ->
  exists name version,
    d = VObj (<["APP_NAME" := name]>
              (<["APP_VERSION" := version]>
               {["APP_ROOT" := VStr (appRoot s)]})).
Proof.
  destruct (outcome_of (getPackage rt fs s)) as [pkg|e] eqn:Hpkg.
  - rewrite (getDefaults_outcome fs s pkg Hpkg).
    destruct (getProp pkg "name") as [name|]; [|done].
    destruct (getProp pkg "version") as [version|]; [|done].
    intros [= <-]. by exists name, version.
  - by rewrite (getDefaults_throw fs s e Hpkg).
Qed.

Lemma toJSON_truthy fs s d :
  outcome_of (toJSON rt fs s) = Ok d -> truthy d = true.
Proof.
  destruct (truthy (config s)) eqn:Hc.
  - rewrite toJSON_set by done. by intros [= <-].
  - rewrite toJSON_unset by done.
    intros (name & version & ->)%getDefaults_object. done.
Qed.

(** *** [addConfig] and the other adders *)

Lemma addConfig_ok fs c s d :
  outcome_of (toJSON rt fs s) = Ok d ->
  addConfig rt fs c s
  = Result (Ok tt)
           (store_of (set_config (deepMergeExtend d c)
                                 (store_of (toJSON rt fs s))))
           (io_of (toJSON rt fs s)).
Proof.
  intros Hd. unfold addConfig. rewrite (bind_ok _ _ _ _ Hd). simpl.
  by rewrite (right_id [] _).
Qed.

Lemma addConfig_throw fs c s e :
  outcome_of (toJSON rt fs s) = Throw e ->
  addConfig rt fs c s
  = Result (Throw e) (store_of (toJSON rt fs s)) (io_of (toJSON rt fs s)).
Proof. intros Hd. unfold addConfig. by rewrite (bind_throw _ _ _ _ Hd). Qed.

(** After [addConfig] returned, the accumulated state is set: the snapshot
    is [this.config] and needs no disk. *)
Lemma addConfig_sets fs c s :
  outcome_of (addConfig rt fs c s) = Ok tt ->
  truthy (config (store_of (addConfig rt fs c s))) = true.
Proof.
  destruct (outcome_of (toJSON rt fs s)) as [d|e] eqn:Hd.
  - rewrite (addConfig_ok _ _ _ _ Hd). simpl. intros _.
    apply deepMergeExtend_truthy. by eapply toJSON_truthy.
  - by rewrite (addConfig_throw _ _ _ _ Hd).
Qed.

Lemma set_config_evolves fs v : preserves (evolves rt fs) (set_config v).
Proof. intros s. by repeat split. Qed.

Lemma addConfig_evolves fs c : preserves (evolves rt fs) (addConfig rt fs c).
Proof.
  unfold addConfig. apply preserves_bind; [apply _| |intros d].
  - intros s. apply reads_evolves, toJSON_reads.
  - apply set_config_evolves.
Qed.

Lemma addFile_evolves fs p : preserves (evolves rt fs) (addFile rt fs p).
Proof.
  unfold addFile. apply preserves_bind; [apply _| |intros c].
  - intros s. apply reads_evolves, loadFile_reads.
  - apply addConfig_evolves.
Qed.

Lemma addString_evolves fs str : preserves (evolves rt fs) (addString rt fs str).
Proof.
  unfold addString. apply preserves_bind; [apply _|apply preserves_lift, _|].
  intros c. apply addConfig_evolves.
Qed.

Lemma addScript_evolves fs str : preserves (evolves rt fs) (addScript rt fs str).
Proof.
  unfold addScript. apply preserves_bind; [apply _| |intros c].
  { intros s. apply reads_evolves, toJSON_reads. }
  apply preserves_bind; [apply _|apply set_config_evolves|intros _].
  destruct c; try apply preserves_throw, _.
  destruct (runInNewContext rt str m) as [m' [e|]].
  - apply preserves_bind; [apply _|apply set_config_evolves|intros _].
    apply preserves_throw, _.
  - apply preserves_bind; [apply _|apply set_config_evolves|intros _].
    apply preserves_ret, _.
Qed.

Lemma invoke_evolves fs m s : evolves rt fs s (invoke rt fs m s).
Proof.
  destruct m; simpl.
  - apply addFile_evolves.
  - apply addString_evolves.
  - apply addScript_evolves.
  - apply addConfig_evolves.
  - apply reads_evolves, getPackage_reads.
  - apply reads_evolves, getDefaults_reads.
  - apply reads_evolves, loadFile_reads.
  - apply reads_evolves, toJSON_reads.
Qed.

(** Whatever is called afterwards, under whatever disks, a truthy cached
    value stays where it is. *)
Lemma invoke_all_cache calls :
  forall s path v,
    fileCache s !! path = Some v -> truthy v = true ->
    fileCache (invoke_all rt calls s) !! path = Some v /\
    appRoot (invoke_all rt calls s) = appRoot s.
Proof.
  induction calls as [|[fs m] rest IH]; intros s path v Hv Ht; [done|].
  simpl. destruct (invoke_evolves fs m s) as (Hroot & Hkeep & _).
  destruct (IH (invoke rt fs m s) path v) as [Hc Hr]; [by apply Hkeep|done|].
  split; [done|congruence].
Qed.

(** *** After an adder has returned *)

Lemma addFile_sets fs p s :
  outcome_of (addFile rt fs p s) = Ok tt ->
  truthy (config (store_of (addFile rt fs p s))) = true.
Proof.
  unfold addFile.
  destruct (outcome_of (loadFile rt fs p s)) as [c|e] eqn:Hl.
  - rewrite (bind_ok _ _ _ _ Hl). simpl. apply addConfig_sets.
  - by rewrite (bind_throw _ _ _ _ Hl).
Qed.



(** A new store has an empty cache, which agrees with every disk. *)
Lemma cache_agrees_new_Config fs root : cache_agrees rt fs (new_Config rt root).
Proof. intros path v Hv. simpl in Hv. by rewrite lookup_empty in Hv. Qed.

End Store.

(** ** Loads under one disk *)

(** What [loadFile] returns depends on the store through the root and the
    cache entry of the resolved path only. *)
Lemma loadFile_outcome_entry rt fs q s s' :
  appRoot s' = appRoot s ->
  fileCache s' !! resolve rt (appRoot s) q
  = fileCache s !! resolve rt (appRoot s) q ->
  outcome_of (loadFile rt fs q s') = outcome_of (loadFile rt fs q s).
Proof.
  intros Hroot Hentry.
  destruct (truthy (slot_value (fileCache s !! resolve rt (appRoot s) q)))
    eqn:Hc.
  - rewrite (loadFile_hit rt fs q s) by done.
    rewrite loadFile_hit; rewrite Hroot, Hentry; done.
  - rewrite (loadFile_miss rt fs q s) by done.
    rewrite loadFile_miss by (by rewrite Hroot, Hentry).
    rewrite Hroot. by destruct (loadFromDisk rt fs _).
Qed.

Lemma loadFile_outcome_path rt fs p q s :
  resolve rt (appRoot s) q = resolve rt (appRoot s) p ->
  outcome_of (loadFile rt fs q s) = outcome_of (loadFile rt fs p s).
Proof.
  intros Hq.
  destruct (truthy (slot_value (fileCache s !! resolve rt (appRoot s) p)))
    eqn:Hc.
  - rewrite (loadFile_hit rt fs p s) by done.
    rewrite loadFile_hit; rewrite Hq; done.
  - rewrite (loadFile_miss rt fs p s) by done.
    rewrite loadFile_miss by (by rewrite Hq).
    rewrite Hq. by destruct (loadFromDisk rt fs _).
Qed.

Lemma loadFile_throw_store rt fs p s e :
  outcome_of (loadFile rt fs p s) = Throw e -> store_of (loadFile rt fs p s) = s.
Proof.
  destruct (truthy (slot_value (fileCache s !! resolve rt (appRoot s) p)))
    eqn:Hc.
  - by rewrite loadFile_hit.
  - rewrite loadFile_miss by done. by destruct (loadFromDisk rt fs _).
Qed.

Lemma loadFile_other_entry rt fs p s path :
  path <> resolve rt (appRoot s) p ->
  fileCache (store_of (loadFile rt fs p s)) !! path = fileCache s !! path.
Proof.
  intros Hne.
  destruct (truthy (slot_value (fileCache s !! resolve rt (appRoot s) p)))
    eqn:Hc.
  - by rewrite loadFile_hit.
  - rewrite loadFile_miss by done.
    destruct (loadFromDisk rt fs _) as [v|e]; [|done].
    simpl. by rewrite lookup_insert_ne.
Qed.

#[global] Instance same_loads_preorder rt fs : PreOrder (same_loads rt fs).
Proof.
  split.
  - intros s. by split.
  - intros s1 s2 s3 [Hr1 Hl1] [Hr2 Hl2]. split; [congruence|].
    intros q. by rewrite Hl2, Hl1.
Qed.

(** A load does not change what a later load under the same disk gives. *)
Lemma loadFile_same_loads rt fs p : preserves (same_loads rt fs) (loadFile rt fs p).
Proof.
  intros s. destruct (loadFile_reads rt fs p s) as [(Hroot & _ & _) _].
  split; [done|]. intros q.
  destruct (decide (resolve rt (appRoot s) q = resolve rt (appRoot s) p))
    as [Heq|Hne].
  - rewrite (loadFile_outcome_path rt fs p q s Heq).
    rewrite (loadFile_outcome_path rt fs p q) by (by rewrite Hroot).
    destruct (outcome_of (loadFile rt fs p s)) as [v|e] eqn:Hl.
    + by apply loadFile_again.
    + by rewrite (loadFile_throw_store rt fs p s e Hl).
  - apply loadFile_outcome_entry; [done|]. by apply loadFile_other_entry.
Qed.

Lemma set_config_same_loads rt fs v : preserves (same_loads rt fs) (set_config v).
Proof.
  intros s. split; [done|]. intros q. by apply loadFile_outcome_entry.
Qed.

Section OneDisk.

Context (R : Config -> Config -> Prop) `{!PreOrder R}.
Context (rt : Runtime) (fs : disk).
Hypothesis loadFile_R : forall p, preserves R (loadFile rt fs p).
Hypothesis set_config_R : forall v, preserves R (set_config v).

Lemma getDefaults_keeps : preserves R (getDefaults rt fs).
Proof.
  unfold getDefaults, getPackage.
  apply preserves_bind; [apply _|apply loadFile_R|intros p1].
  apply preserves_bind; [apply _|apply preserves_lift, _|intros name].
  apply preserves_bind; [apply _|apply loadFile_R|intros p2].
  apply preserves_bind; [apply _|apply preserves_lift, _|intros version].
  apply preserves_bind; [apply _|apply preserves_this, _|intros s'].
  apply preserves_ret, _.
Qed.

Lemma toJSON_keeps : preserves R (toJSON rt fs).
Proof.
  intros s. destruct (truthy (config s)) eqn:Hc.
  - rewrite toJSON_set by done. reflexivity.
  - rewrite toJSON_unset by done. apply getDefaults_keeps.
Qed.

Lemma addConfig_keeps c : preserves R (addConfig rt fs c).
Proof.
  unfold addConfig.
  apply preserves_bind; [apply _|apply toJSON_keeps|intros d].
  apply set_config_R.
Qed.

Lemma fragment_keeps c : preserves R (fragment rt fs c).
Proof.
  destruct c; simpl.
  - apply preserves_ret, _.
  - apply loadFile_R.
  - apply preserves_lift, _.
Qed.

Lemma add_keeps c : preserves R (add rt fs c).
Proof.
  unfold add.
  apply preserves_bind; [apply _|apply fragment_keeps|intros f].
  apply preserves_bind; [apply _|apply addConfig_keeps|intros _].
  apply preserves_ret, _.
Qed.

End OneDisk.

Lemma getDefaults_same_outcome rt fs s s' :
  same_loads rt fs s s' ->
  outcome_of (getDefaults rt fs s') = outcome_of (getDefaults rt fs s).
Proof.
  intros [Hroot Hloads]. specialize (Hloads "package.json").
  fold (getPackage rt fs s') in Hloads. fold (getPackage rt fs s) in Hloads.
  destruct (outcome_of (getPackage rt fs s)) as [pkg|e] eqn:Hpkg.
  - rewrite (getDefaults_outcome rt fs s pkg Hpkg).
    rewrite (getDefaults_outcome rt fs s' pkg Hloads). by rewrite Hroot.
  - rewrite (getDefaults_throw rt fs s e Hpkg).
    by rewrite (getDefaults_throw rt fs s' e Hloads).
Qed.

Lemma toJSON_same_outcome rt fs s s' :
  same_loads rt fs s s' -> config s' = config s ->
  outcome_of (toJSON rt fs s') = outcome_of (toJSON rt fs s).
Proof.
  intros Hsame Hcfg. destruct (truthy (config s)) eqn:Hc.
  - rewrite !toJSON_set by (by rewrite ?Hcfg). by rewrite Hcfg.
  - rewrite !toJSON_unset by (by rewrite ?Hcfg).
    by apply getDefaults_same_outcome.
Qed.

(** * The properties of the specification *)

(** C1.  Two [addConfig] calls in a row, on a store whose snapshot is the
    object [base]: both return, and the accumulated state is the left fold
    of the deep merge over the two fragments.  In it every key path at which
    [B] has a non-object value has [B]'s value (whether or not [A] has the
    path), and is an object where [B] has an object; every key path at
    which [A] has a non-object value and that [B] does not have has [A]'s
    value, the merge recursing into the nested objects of [B] along the path
    (every prefix of the path that [B] has is an object there).  On a fresh
    store and the two fragments of the example
    scenario the snapshot's [db] is [{host: 'localhost', port: 5433}]. *)
Theorem addConfig_twice_key_paths
        (rt : Runtime) (fs : disk) (s : Config) (base A B : gmap string value) :
  outcome_of (toJSON rt fs s) = Ok (VObj base) ->
  let r := (addConfig rt fs (VObj A) >> addConfig rt fs (VObj B)) s in
  outcome_of r = Ok tt /\
  config (store_of r)
  = deepMergeExtend (deepMergeExtend (VObj base) (VObj A)) (VObj B) /\
  exists c,
    config (store_of r) = VObj c /\
    (forall fs', outcome_of (toJSON rt fs' (store_of r)) = Ok (VObj c)) /\
    (forall p b,
        lookup_path (VObj B) p = Some b -> is_object b = false ->
        lookup_path (VObj c) p = Some b) /\
    (forall p b,
        p <> [] -> lookup_path (VObj B) p = Some b -> is_object b = true ->
        exists m, lookup_path (VObj c) p = Some (VObj m)) /\
    (forall p a,
        lookup_path (VObj A) p = Some a -> is_object a = false ->
        lookup_path (VObj B) p = None ->
        (forall q b, q `prefix_of` p -> lookup_path (VObj B) q = Some b ->
                     is_object b = true) ->
        lookup_path (VObj c) p = Some a) /\
    (config s = VUndefined -> A = Sample.db_first -> B = Sample.db_second ->
     c !! "db" = Some Sample.db_merged).
Proof.
  intros Hbase r.
  pose proof (addConfig_ok rt fs (VObj A) s (VObj base) Hbase) as H1.
  set (s1 := store_of (addConfig rt fs (VObj A) s)).
  assert (config s1 = deepMergeExtend (VObj base) (VObj A)) as Hc1
    by (unfold s1; by rewrite H1).
  assert (toJSON rt fs s1 = Result (Ok (config s1)) s1 []) as Hj1
    by (apply toJSON_set; by rewrite Hc1).
  assert (outcome_of (addConfig rt fs (VObj A) s) = Ok tt) as Hok1
    by (by rewrite H1).
  assert (r = Result (Ok tt)
                     (store_of (set_config
                                  (deepMergeExtend (config s1) (VObj B)) s1))
                     (io_of (addConfig rt fs (VObj A) s) ++ [])) as Hr.
  { unfold r. rewrite (bind_ok _ _ _ _ Hok1). fold s1.
    rewrite (addConfig_ok rt fs (VObj B) s1 (config s1)) by (by rewrite Hj1).
    by rewrite Hj1. }
  assert (config (store_of r)
          = deepMergeExtend (deepMergeExtend (VObj base) (VObj A)) (VObj B))
    as Hcfg by (rewrite Hr; simpl; by rewrite Hc1).
  split; [by rewrite Hr|]. split; [done|].
  rewrite Hcfg.
  rewrite (deepMergeExtend_objects base A).
  set (x := map_imap _ A ∪ base).
  rewrite (deepMergeExtend_objects x B).
  eexists. split; [done|]. repeat split.
  - intros fs'. rewrite toJSON_set; rewrite Hcfg;
      rewrite (deepMergeExtend_objects base A); fold x;
      rewrite (deepMergeExtend_objects x B); done.
  - intros p b Hp Hb. rewrite <- deepMergeExtend_objects.
    apply deepMergeExtend_path_leaf; [|done..].
    intros ->. simpl in Hp. by injection Hp as <-.
  - intros p b Hne Hp Hb. rewrite <- deepMergeExtend_objects.
    rewrite (deepMergeExtend_path p x (VObj B) b Hne Hp).
    pose proof (merge_slot_is_object (lookup_path (VObj x) p) b Hb) as Ho.
    destruct (merge_slot (lookup_path (VObj x) p) b) as [| | | | | |m];
      try done.
    by exists m.
  - intros p a Hp Ha Hnone Hpre. rewrite <- deepMergeExtend_objects.
    apply deepMergeExtend_path_keep; [|done..].
    unfold x. rewrite <- deepMergeExtend_objects.
    apply deepMergeExtend_path_leaf; [|done..].
    intros ->. simpl in Hp. by injection Hp as <-.
  - intros Hfresh -> ->.
    rewrite toJSON_unset in Hbase by (by rewrite Hfresh).
    apply getDefaults_object in Hbase as (name & version & [= ->]).
    rewrite lookup_merged. unfold x. rewrite lookup_merged.
    unfold Sample.db_second, Sample.db_first.
    rewrite !lookup_singleton_eq.
    rewrite !lookup_insert_ne by done. rewrite lookup_singleton_ne by done.
    f_equal.
Qed.

Lemma addConfig_twice_key_paths_witness :
  outcome_of (toJSON Sample.rt Sample.app_disk Sample.fresh)
  = Ok (VObj Sample.defaults) /\
  exists c,
    config (store_of ((addConfig Sample.rt Sample.app_disk (VObj Sample.db_first)
                       >> addConfig Sample.rt Sample.app_disk
                                    (VObj Sample.db_second)) Sample.fresh))
    = VObj c /\
    c !! "db" = Some Sample.db_merged.
Proof.
  assert (outcome_of (toJSON Sample.rt Sample.app_disk Sample.fresh)
          = Ok (VObj Sample.defaults)) as Hbase by (vm_compute; reflexivity).
  split; [exact Hbase|].
  destruct (addConfig_twice_key_paths
              Sample.rt Sample.app_disk Sample.fresh Sample.defaults
              Sample.db_first Sample.db_second Hbase)
    as (_ & _ & c & Hc & _ & _ & _ & _ & Hex).
  exists c. split; [exact Hc|]. apply Hex; reflexivity.
Defined.

(** C2.  The cache test of [loadFile] is [if (data)]: a parsed value that is
    falsy ([undefined] for an empty YAML document, [null], [false], [0],
    the empty string) is stored and never served.  After a first [loadFile]
    that read and parsed such a file, a second [loadFile] of the same path
    returns the same value but goes to the disk again. *)
Theorem loadFile_falsy_value_is_read_again
        (rt : Runtime) (fs : disk) (p : string) (s : Config)
        (content : string) (v : value) :
  truthy (slot_value (fileCache s !! resolve rt (appRoot s) p)) = false ->
  fs !! resolve rt (appRoot s) p = Some (File content) ->
  parseFile rt content (Some (extname rt (resolve rt (appRoot s) p))) = Ok v ->
  truthy v = false ->
  let r1 := loadFile rt fs p s in
  let r2 := loadFile rt fs p (store_of r1) in
  outcome_of r1 = Ok v /\
  fileCache (store_of r1) !! resolve rt (appRoot s) p = Some v /\
  outcome_of r2 = Ok v /\
  io_of r2 = [ExistsSync (resolve rt (appRoot s) p);
              ReadFileSync (resolve rt (appRoot s) p)].
Proof.
  intros Hmiss Hfile Hparse Hv r1 r2.
  assert (loadFromDisk rt fs (resolve rt (appRoot s) p) = Ok v) as Hd
    by (unfold loadFromDisk; by rewrite Hfile, Hparse).
  assert (disk_io fs (resolve rt (appRoot s) p)
          = [ExistsSync (resolve rt (appRoot s) p);
             ReadFileSync (resolve rt (appRoot s) p)]) as Hio
    by (unfold disk_io; by rewrite Hfile).
  assert (r1 = Result (Ok v)
                      (store_of (set_fileCache (resolve rt (appRoot s) p) v s))
                      (disk_io fs (resolve rt (appRoot s) p))) as Hr1
    by (unfold r1; rewrite loadFile_miss by done; by rewrite Hd).
  assert (fileCache (store_of r1) !! resolve rt (appRoot s) p = Some v) as Hc
    by (rewrite Hr1; apply lookup_insert_eq).
  split; [by rewrite Hr1|]. split; [done|].
  unfold r2. rewrite loadFile_miss.
  - replace (appRoot (store_of r1)) with (appRoot s) by (by rewrite Hr1).
    rewrite Hd. by split.
  - replace (appRoot (store_of r1)) with (appRoot s) by (by rewrite Hr1).
    by rewrite Hc.
Qed.

Lemma loadFile_falsy_value_is_read_again_witness :
  io_of (loadFile Sample.rt Sample.bad_disk "empty.yaml"
           (store_of (loadFile Sample.rt Sample.bad_disk "empty.yaml"
                               Sample.fresh)))
  = [ExistsSync "/app/empty.yaml"; ReadFileSync "/app/empty.yaml"].
Proof.
  apply (loadFile_falsy_value_is_read_again
           Sample.rt Sample.bad_disk "empty.yaml" Sample.fresh "" VUndefined);
    vm_compute; reflexivity.
Defined.

(** C3, as worded, fails in two ways.  On a fresh store whose package
    metadata does not parse, the missing fragment loads as [{}] and
    [addConfig] then throws while it seeds the accumulated state from the
    defaults.  On a store that loaded [a.json] while the file was there,
    [addFile] of the now missing [a.json] merges the cached [{port: 5433}],
    so the snapshot changes. *)
Lemma missing_file_claim_fails :
  ~ missing_file_claim Sample.rt Sample.broken_pkg_disk "does-not-exist.json"
      Sample.fresh /\
  ~ missing_file_claim Sample.rt More.no_pkg_disk "a.json" More.loaded_a_json.
Proof.
  split; intros Hclaim.
  - destruct Hclaim as [Hok _]; [reflexivity|].
    vm_compute in Hok. discriminate.
  - destruct Hclaim as [_ Hsnap]; [reflexivity|].
    vm_compute in Hsnap. discriminate.
Qed.

(** C3, amended.  For a path with no file, on a store whose cache holds no
    truthy value for the path other than the [{}] of an earlier miss, and
    whose snapshot can be taken (the accumulated state is set, or the
    defaults load): [addFile] returns, and the accumulated state and the
    snapshot afterwards are the snapshot of before. *)
Theorem addFile_missing_file
        (rt : Runtime) (fs : disk) (p : string) (s : Config) (snap : value) :
  fs !! resolve rt (appRoot s) p = None ->
  (forall v, fileCache s !! resolve rt (appRoot s) p = Some v ->
             truthy v = true -> v = VObj ∅) ->
  outcome_of (toJSON rt fs s) = Ok snap ->
  let r := addFile rt fs p s in
  outcome_of r = Ok tt /\
  config (store_of r) = snap /\
  outcome_of (toJSON rt fs (store_of r)) = Ok snap.
Proof.
  intros Hnone Hcache Hsnap r.
  assert (outcome_of (loadFile rt fs p s) = Ok (VObj ∅)) as Hload.
  { destruct (truthy (slot_value (fileCache s !! resolve rt (appRoot s) p)))
      eqn:Hc.
    - rewrite loadFile_hit by done. simpl.
      destruct (fileCache s !! resolve rt (appRoot s) p) as [v|] eqn:Hv;
        [|done].
      by rewrite (Hcache v eq_refl Hc).
    - rewrite loadFile_miss by done. unfold loadFromDisk. by rewrite Hnone. }
  destruct (loadFile_reads rt fs p s) as [_ Hcfg].
  pose proof (loadFile_same_loads rt fs p s) as Hsame.
  set (s1 := store_of (loadFile rt fs p s)) in *.
  assert (outcome_of (toJSON rt fs s1) = Ok snap) as Hs1
    by (by rewrite (toJSON_same_outcome rt fs s s1 Hsame Hcfg)).
  assert (outcome_of r = outcome_of (addConfig rt fs (VObj ∅) s1)
          /\ store_of r = store_of (addConfig rt fs (VObj ∅) s1))
    as [-> ->]
    by (unfold r, addFile; by rewrite (bind_ok _ _ _ _ Hload)).
  rewrite (addConfig_ok rt fs (VObj ∅) s1 snap Hs1).
  cbn [outcome_of store_of set_config config].
  rewrite deepMergeExtend_empty. split; [done|]. split; [done|].
  rewrite toJSON_set; [done|]. simpl. by apply (toJSON_truthy rt fs s1).
Qed.

Lemma addFile_missing_file_witness :
  outcome_of (addFile Sample.rt Sample.app_disk "does-not-exist.json"
                      Sample.fresh) = Ok tt /\
  config (store_of (addFile Sample.rt Sample.app_disk "does-not-exist.json"
                            Sample.fresh)) = VObj Sample.defaults.
Proof.
  destruct (addFile_missing_file Sample.rt Sample.app_disk
              "does-not-exist.json" Sample.fresh (VObj Sample.defaults))
    as (Hok & Hcfg & _).
  - reflexivity.
  - intros v Hv. vm_compute in Hv. discriminate.
  - vm_compute. reflexivity.
  - split; [exact Hok|exact Hcfg].
Defined.

(** C4, as worded for every existing malformed file, fails when the cache
    serves the path: on a store that looked for [bad.json] when it was
    missing and cached [{}], [addFile] of the malformed [bad.json] that
    exists now returns, from the cache, and the file is never read. *)
Lemma malformed_file_claim_fails :
  ~ malformed_file_claim Sample.rt Sample.bad_disk "bad.json"
      More.looked_for_bad_json.
Proof.
  intros Hclaim.
  destruct (Hclaim "{oops"
                   {| message := "JSON5: invalid end of input at 1:6";
                      fileName := None |})
    as [Hthrow _]; [reflexivity..|].
  vm_compute in Hthrow. discriminate.
Qed.

(** C4, amended.  [addFile] of a path that the cache does not serve (no
    truthy value is cached for it), where a file
    exists whose content the parser for its extension rejects with [e]:
    the call throws an error whose [fileName] is the resolved path and whose
    message is the parser's, behind the path; the store (accumulated state
    and cache) is what it was; nothing is cached, so the same call again
    reads and parses again, and picks up the file once it parses. *)
Theorem addFile_malformed_file
        (rt : Runtime) (fs : disk) (p : string) (s : Config)
        (content : string) (e : error) :
  truthy (slot_value (fileCache s !! resolve rt (appRoot s) p)) = false ->
  fs !! resolve rt (appRoot s) p = Some (File content) ->
  parseFile rt content (Some (extname rt (resolve rt (appRoot s) p))) = Throw e ->
  let path := resolve rt (appRoot s) p in
  let r := addFile rt fs p s in
  outcome_of r
  = Throw {| message := "Error loading config " ++ path ++ ": " ++ message e;
             fileName := Some path |} /\
  store_of r = s /\
  io_of r = [ExistsSync path; ReadFileSync path] /\
  addFile rt fs p (store_of r) = r /\
  (forall fs' content' v,
      fs' !! path = Some (File content') ->
      parseFile rt content' (Some (extname rt path)) = Ok v ->
      outcome_of (loadFile rt fs' p (store_of r)) = Ok v /\
      io_of (loadFile rt fs' p (store_of r))
      = [ExistsSync path; ReadFileSync path]).
Proof.
  intros Hmiss Hfile Hparse path r.
  assert (path = resolve rt (appRoot s) p) as Hpath by done.
  clearbody path. subst path.
  set (path := resolve rt (appRoot s) p) in *.
  assert (loadFile rt fs p s
          = Result (Throw (loadError path e)) s
                   [ExistsSync path; ReadFileSync path]) as Hload.
  { rewrite loadFile_miss by done. unfold loadFromDisk, disk_io.
    fold path. by rewrite Hfile, Hparse. }
  assert (r = Result (Throw (loadError path e)) s
                     [ExistsSync path; ReadFileSync path]) as Hr.
  { unfold r, addFile. rewrite (bind_throw _ _ s (loadError path e));
      by rewrite Hload. }
  rewrite Hr. cbn [outcome_of store_of io_of].
  split; [done|]. split; [done|]. split; [done|]. split; [by rewrite <- Hr|].
  intros fs' content' v Hfile' Hparse'.
  rewrite loadFile_miss by done. unfold loadFromDisk, disk_io. fold path.
  by rewrite Hfile', Hparse'.
Qed.

Lemma addFile_malformed_file_witness :
  outcome_of (addFile Sample.rt Sample.bad_disk "bad.json" Sample.fresh)
  = Throw {| message := "Error loading config /app/bad.json: "
                          ++ "JSON5: invalid end of input at 1:6";
             fileName := Some "/app/bad.json" |} /\
  store_of (addFile Sample.rt Sample.bad_disk "bad.json" Sample.fresh)
  = Sample.fresh.
Proof.
  destruct (addFile_malformed_file
              Sample.rt Sample.bad_disk "bad.json" Sample.fresh "{oops"
              {| message := "JSON5: invalid end of input at 1:6";
                 fileName := None |})
    as (Hthrow & Hstore & _); [vm_compute; reflexivity..|].
  split; [exact Hthrow|exact Hstore].
Defined.

(** C5, as worded, fails: [addString] has one parameter and calls
    [parseFile] without an extension, so a YAML hint does not reach the
    dispatch.  With the hint [.yaml] the text [port: 5433] would merge
    [{port: 5433}]; [addString] gives it to [JSON5.parse], which throws. *)
Lemma addString_hint_claim_fails :
  ~ addString_hint_claim Sample.rt Sample.app_disk "port: 5433" (Some ".yaml")
      Sample.fresh.
Proof.
  unfold addString_hint_claim. intros Heq.
  apply (f_equal outcome_of) in Heq. vm_compute in Heq. discriminate.
Qed.

(** C5, amended.  [addString] parses its text with the relaxed-JSON parser,
    whatever hint a caller has in mind: it is the hinted dispatch at an
    absent hint, and at every hint that is not [.yaml] or [.yml]; the
    parsed fragment is merged by [addConfig], and a text the parser rejects
    makes the call throw the parser's error and leave the store alone. *)
Theorem addString_parses_relaxed_JSON
        (rt : Runtime) (fs : disk) (str : string) (hint : option string)
        (s : Config) :
  addString rt fs str s = addString_hinted rt fs str None s /\
  (hint <> Some ".yaml" -> hint <> Some ".yml" ->
   addString_hinted rt fs str hint s = addString rt fs str s) /\
  (forall c, JSON5_parse rt str = Ok c ->
             addString rt fs str s = addConfig rt fs c s) /\
  (forall e, JSON5_parse rt str = Throw e ->
             addString rt fs str s = Result (Throw e) s []).
Proof.
  assert (parseFile rt str None = JSON5_parse rt str) as Hnone by done.
  split; [done|]. split; [|split].
  - intros Hyaml Hyml. unfold addString_hinted, addString. f_equal.
    rewrite Hnone. unfold parseFile.
    destruct hint as [h|]; [|done].
    repeat (destruct h as [|[[] [] [] [] [] [] [] []] h]; try done).
  - intros c Hc. unfold addString. by rewrite Hnone, Hc, bind_lift_ok.
  - intros e He. unfold addString. by rewrite Hnone, He, bind_lift_throw.
Qed.

Lemma addString_parses_relaxed_JSON_witness :
  addString_hinted Sample.rt Sample.app_disk "{ port: 5433 }" (Some ".json")
                   Sample.fresh
  = addString Sample.rt Sample.app_disk "{ port: 5433 }" Sample.fresh /\
  addString Sample.rt Sample.app_disk "{ port: 5433 }" Sample.fresh
  = addConfig Sample.rt Sample.app_disk Sample.port_5433 Sample.fresh.
Proof.
  destruct (addString_parses_relaxed_JSON
              Sample.rt Sample.app_disk "{ port: 5433 }" (Some ".json")
              Sample.fresh) as (_ & Hhint & Hok & _).
  split.
  - apply Hhint; discriminate.
  - apply Hok. reflexivity.
Defined.



(** C7, as worded for every path and every disk state, fails on a file that
    does not parse: a failed load is not cached, so the second [addFile]
    reads the file again. *)
Lemma addFile_twice_claim_fails :
  ~ addFile_twice_claim Sample.rt Sample.bad_disk "bad.json" Sample.fresh.
Proof.
  unfold addFile_twice_claim. intros [_ Hio].
  vm_compute in Hio. discriminate.
Qed.

Lemma loadFile_caches rt fs p s v :
  outcome_of (loadFile rt fs p s) = Ok v -> truthy v = true ->
  fileCache (store_of (loadFile rt fs p s)) !! resolve rt (appRoot s) p
  = Some v.
Proof.
  destruct (truthy (slot_value (fileCache s !! resolve rt (appRoot s) p)))
    eqn:Hc.
  - rewrite loadFile_hit by done. simpl. intros [= <-] _.
    by destruct (fileCache s !! resolve rt (appRoot s) p).
  - rewrite loadFile_miss by done.
    destruct (loadFromDisk rt fs _) as [w|e]; [|done].
    simpl. intros [= ->] _. apply lookup_insert_eq.
Qed.

Lemma bind_pure {A B} (m : M A) (f : A -> M B) s a :
  m s = Result (Ok a) s [] -> bind m f s = f a s.
Proof. intros Hm. unfold bind. rewrite Hm. simpl. by destruct (f a s). Qed.

Lemma set_config_same s : store_of (set_config (config s) s) = s.
Proof. by destruct s. Qed.

(** C7, amended.  When the first [addFile] returns and the value it loaded
    is truthy (an object, the [{}] of a missing file included), the second
    [addFile] of the same path with the disk unchanged returns, leaves the
    store, and so the accumulated configuration, as the first call left it,
    and makes no disk access. *)
Theorem addFile_twice_same_as_once
        (rt : Runtime) (fs : disk) (p : string) (s : Config) (v : value) :
  outcome_of (loadFile rt fs p s) = Ok v ->
  truthy v = true ->
  outcome_of (addFile rt fs p s) = Ok tt ->
  let r1 := addFile rt fs p s in
  let r2 := addFile rt fs p (store_of r1) in
  outcome_of r2 = Ok tt /\
  config (store_of r2) = config (store_of r1) /\
  store_of r2 = store_of r1 /\
  io_of r2 = [].
Proof.
  intros Hload Hv Hok r1 r2.
  set (s1 := store_of (loadFile rt fs p s)).
  assert (store_of r1 = store_of (addConfig rt fs v s1) /\
          outcome_of (addConfig rt fs v s1) = Ok tt) as [Hst1 Hok1].
  { unfold r1, addFile in *. rewrite (bind_ok _ _ _ _ Hload) in *. done. }
  destruct (loadFile_reads rt fs p s) as [(Hroot1 & _ & _) _]. fold s1 in Hroot1.
  destruct (addConfig_evolves rt fs v s1) as (Hroot2 & Hkeep & _).
  assert (fileCache (store_of r1) !! resolve rt (appRoot (store_of r1)) p
          = Some v) as Hcached.
  { rewrite Hst1, Hroot2, Hroot1. apply Hkeep; [|done].
    by apply loadFile_caches. }
  assert (loadFile rt fs p (store_of r1) = Result (Ok v) (store_of r1) [])
    as Hhit by (rewrite loadFile_hit; rewrite Hcached; done).
  assert (truthy (config (store_of r1)) = true) as Hset
    by (by apply addFile_sets).
  destruct (outcome_of (toJSON rt fs s1)) as [d|e] eqn:Hd;
    [|by rewrite (addConfig_throw _ _ _ _ _ Hd) in Hok1].
  assert (config (store_of r1) = deepMergeExtend d v) as Hcfg
    by (rewrite Hst1, (addConfig_ok _ _ _ _ _ Hd); done).
  assert (r2 = Result (Ok tt) (store_of r1) []) as Hr2.
  { unfold r2, addFile. rewrite (bind_pure _ _ _ _ Hhit).
    rewrite (addConfig_ok rt fs v (store_of r1) (config (store_of r1)))
      by (by rewrite toJSON_set).
    rewrite toJSON_set by done. cbn [store_of io_of]. f_equal.
    rewrite Hcfg at 1. rewrite deepMergeExtend_idempotent, <- Hcfg.
    apply set_config_same. }
  by rewrite Hr2.
Qed.

Lemma addFile_twice_same_as_once_witness :
  addFile Sample.rt Sample.app_disk "a.yaml"
          (store_of (addFile Sample.rt Sample.app_disk "a.yaml" Sample.fresh))
  = Result (Ok tt)
           (store_of (addFile Sample.rt Sample.app_disk "a.yaml" Sample.fresh))
           [].
Proof.
  destruct (addFile_twice_same_as_once
              Sample.rt Sample.app_disk "a.yaml" Sample.fresh Sample.port_5433)
    as (Hok & _ & Hstore & Hio); [vm_compute; reflexivity..|].
  rewrite (result_eta (addFile _ _ _ _)). by rewrite Hok, Hstore, Hio.
Defined.

(** C8.  A path whose first lookup ([loadFile] or [addFile]) goes to the
    disk and finds no file: the sentinel [{}] is cached, and whatever
    methods are called afterwards under whatever disks, a later [loadFile]
    of the path under any disk returns [{}] without a disk access, and a
    later [addFile] is [addConfig] of [{}]: it merges nothing, the
    accumulated state becoming the snapshot of before. *)
Theorem missing_file_is_never_picked_up
        (rt : Runtime) (fs0 : disk) (p : string) (s s1 : Config)
        (calls : list (disk * method)) (fs' : disk) :
  truthy (slot_value (fileCache s !! resolve rt (appRoot s) p)) = false ->
  fs0 !! resolve rt (appRoot s) p = None ->
  s1 = store_of (loadFile rt fs0 p s) \/ s1 = store_of (addFile rt fs0 p s) ->
  let s2 := invoke_all rt calls s1 in
  loadFile rt fs' p s2 = Result (Ok (VObj ∅)) s2 [] /\
  addFile rt fs' p s2 = addConfig rt fs' (VObj ∅) s2 /\
  (forall snap, outcome_of (toJSON rt fs' s2) = Ok snap ->
                outcome_of (addFile rt fs' p s2) = Ok tt /\
                config (store_of (addFile rt fs' p s2)) = snap).
Proof.
  intros Hmiss Hnone Hfirst s2.
  assert (loadFile rt fs0 p s
          = Result (Ok (VObj ∅))
                   (store_of (set_fileCache (resolve rt (appRoot s) p)
                                            (VObj ∅) s))
                   (disk_io fs0 (resolve rt (appRoot s) p))) as Hload.
  { rewrite loadFile_miss by done. unfold loadFromDisk. by rewrite Hnone. }
  assert (fileCache s1 !! resolve rt (appRoot s) p = Some (VObj ∅)
          /\ appRoot s1 = appRoot s) as [Hc1 Hroot1].
  { destruct Hfirst as [-> | ->].
    - rewrite Hload. split; [apply lookup_insert_eq|done].
    - unfold addFile. rewrite (bind_ok _ _ _ (VObj ∅)) by (by rewrite Hload).
      cbn [store_of].
      destruct (addConfig_evolves rt fs0 (VObj ∅)
                  (store_of (loadFile rt fs0 p s))) as (Hr & Hk & _).
      split.
      + apply Hk; [|done]. rewrite Hload. apply lookup_insert_eq.
      + rewrite Hr. by rewrite Hload. }
  destruct (invoke_all_cache rt calls s1 _ _ Hc1 eq_refl) as [Hc2 Hroot2].
  fold s2 in Hc2, Hroot2.
  assert (loadFile rt fs' p s2 = Result (Ok (VObj ∅)) s2 []) as Hhit.
  { rewrite loadFile_hit; rewrite Hroot2, Hroot1, Hc2; done. }
  split; [done|].
  assert (addFile rt fs' p s2 = addConfig rt fs' (VObj ∅) s2) as Hadd
    by (unfold addFile; by rewrite (bind_pure _ _ _ _ Hhit)).
  split; [done|].
  intros snap Hsnap. rewrite Hadd, (addConfig_ok _ _ _ _ _ Hsnap).
  split; [done|]. simpl. apply deepMergeExtend_empty.
Qed.

Lemma missing_file_is_never_picked_up_witness :
  loadFile Sample.rt Sample.app_disk "a.json"
           (invoke_all Sample.rt [(Sample.app_disk, MAddFile "a.yaml")]
              (store_of (loadFile Sample.rt Sample.broken_pkg_disk "a.json"
                                  Sample.fresh)))
  = Result (Ok (VObj ∅))
           (invoke_all Sample.rt [(Sample.app_disk, MAddFile "a.yaml")]
              (store_of (loadFile Sample.rt Sample.broken_pkg_disk "a.json"
                                  Sample.fresh)))
           [].
Proof.
  apply (missing_file_is_never_picked_up
           Sample.rt Sample.broken_pkg_disk "a.json" Sample.fresh
           (store_of (loadFile Sample.rt Sample.broken_pkg_disk "a.json"
                               Sample.fresh))
           [(Sample.app_disk, MAddFile "a.yaml")] Sample.app_disk).
  - reflexivity.
  - reflexivity.
  - left. reflexivity.
Defined.

(** C9, as worded for stores in any state, fails when the cache serves one
    of the paths: on a store that looked for [a.yaml] when it was missing
    and cached [{}], [addFile] of [a.yaml] merges nothing while [addFile] of
    [a.json] merges [{port: 5433}]. *)
Lemma yaml_json_claim_fails :
  ~ yaml_json_claim Sample.rt Sample.app_disk "a.yaml" "a.json"
      More.looked_for_a_yaml.
Proof.
  intros Hclaim.
  specialize (Hclaim "port: 5433" "{ port: 5433 }" Sample.port_5433
                     eq_refl eq_refl eq_refl eq_refl eq_refl eq_refl).
  apply (f_equal (fun c => lookup_path c ["port"])) in Hclaim.
  vm_compute in Hclaim. discriminate.
Qed.

(** What [addFile] does with a file that loads as [v], in terms of the
    snapshot of before. *)
Lemma addFile_loaded rt fs p s v :
  outcome_of (loadFile rt fs p s) = Ok v ->
  outcome_of (addFile rt fs p s)
  = match outcome_of (toJSON rt fs s) with
    | Ok _ => Ok tt
    | Throw e => Throw e
    end /\
  config (store_of (addFile rt fs p s))
  = match outcome_of (toJSON rt fs s) with
    | Ok d => deepMergeExtend d v
    | Throw _ => config s
    end /\
  same_loads rt fs s (store_of (addFile rt fs p s)).
Proof.
  intros Hload.
  destruct (loadFile_reads rt fs p s) as [_ Hcfg].
  pose proof (loadFile_same_loads rt fs p s) as Hsame.
  pose proof (addConfig_keeps (same_loads rt fs) rt fs
                (loadFile_same_loads rt fs) (set_config_same_loads rt fs)
                v (store_of (loadFile rt fs p s))) as Hadd.
  unfold addFile. rewrite (bind_ok _ _ _ _ Hload).
  cbn [outcome_of store_of].
  set (s1 := store_of (loadFile rt fs p s)) in *.
  rewrite <- (toJSON_same_outcome rt fs s s1 Hsame Hcfg).
  split; [|split; [|by etrans]].
  - destruct (outcome_of (toJSON rt fs s1)) as [d|e] eqn:Hd.
    + by rewrite (addConfig_ok rt fs v s1 d Hd).
    + by rewrite (addConfig_throw rt fs v s1 e Hd).
  - destruct (outcome_of (toJSON rt fs s1)) as [d|e] eqn:Hd.
    + by rewrite (addConfig_ok rt fs v s1 d Hd).
    + rewrite (addConfig_throw rt fs v s1 e Hd). cbn [store_of].
      rewrite <- Hcfg. apply (toJSON_reads rt fs s1).
Qed.

(** C9, amended.  On a store whose cache serves neither path (no truthy
    value is cached for the one or the other), a file with a YAML extension
    and a file with a JSON extension whose contents the YAML parser and the
    relaxed-JSON parser turn into the same value: [addFile] of the one and
    [addFile] of the other, from the same store, end alike (both return or
    both throw the same error) with the same accumulated configuration and
    the same snapshot. *)
Theorem addFile_yaml_json_equivalent
        (rt : Runtime) (fs : disk) (s : Config) (p1 p2 c1 c2 : string)
        (v : value) :
  truthy (slot_value (fileCache s !! resolve rt (appRoot s) p1)) = false ->
  truthy (slot_value (fileCache s !! resolve rt (appRoot s) p2)) = false ->
  extname rt (resolve rt (appRoot s) p1) = ".yaml"
  \/ extname rt (resolve rt (appRoot s) p1) = ".yml" ->
  extname rt (resolve rt (appRoot s) p2) = ".json"
  \/ extname rt (resolve rt (appRoot s) p2) = ".json5" ->
  fs !! resolve rt (appRoot s) p1 = Some (File c1) ->
  fs !! resolve rt (appRoot s) p2 = Some (File c2) ->
  yaml_load rt c1 = Ok v ->
  JSON5_parse rt c2 = Ok v ->
  let r1 := addFile rt fs p1 s in
  let r2 := addFile rt fs p2 s in
  outcome_of r1 = outcome_of r2 /\
  config (store_of r1) = config (store_of r2) /\
  outcome_of (toJSON rt fs (store_of r1))
  = outcome_of (toJSON rt fs (store_of r2)).
Proof.
  intros Hmiss1 Hmiss2 Hext1 Hext2 Hf1 Hf2 Hyaml Hjson r1 r2.
  assert (outcome_of (loadFile rt fs p1 s) = Ok v) as Hl1.
  { rewrite loadFile_miss by done. unfold loadFromDisk, parseFile.
    rewrite Hf1. by destruct Hext1 as [-> | ->]; rewrite Hyaml. }
  assert (outcome_of (loadFile rt fs p2 s) = Ok v) as Hl2.
  { rewrite loadFile_miss by done. unfold loadFromDisk, parseFile.
    rewrite Hf2. by destruct Hext2 as [-> | ->]; rewrite Hjson. }
  destruct (addFile_loaded rt fs p1 s v Hl1) as (Ho1 & Hc1 & Hs1).
  destruct (addFile_loaded rt fs p2 s v Hl2) as (Ho2 & Hc2 & Hs2).
  fold r1 in Ho1, Hc1, Hs1. fold r2 in Ho2, Hc2, Hs2.
  assert (config (store_of r1) = config (store_of r2)) as Hcfg by congruence.
  split; [congruence|]. split; [done|].
  destruct (truthy (config (store_of r1))) eqn:Ht.
  - rewrite !toJSON_set by (by rewrite <- ?Hcfg). by rewrite Hcfg.
  - rewrite !toJSON_unset by (by rewrite <- ?Hcfg).
    rewrite (getDefaults_same_outcome rt fs s _ Hs1).
    by rewrite (getDefaults_same_outcome rt fs s _ Hs2).
Qed.

Lemma addFile_yaml_json_equivalent_witness :
  config (store_of (addFile Sample.rt Sample.app_disk "a.yaml" Sample.fresh))
  = config (store_of (addFile Sample.rt Sample.app_disk "a.json" Sample.fresh)).
Proof.
  apply (addFile_yaml_json_equivalent
           Sample.rt Sample.app_disk Sample.fresh "a.yaml" "a.json"
           "port: 5433" "{ port: 5433 }" Sample.port_5433).
  - reflexivity.
  - reflexivity.
  - left. reflexivity.
  - left. reflexivity.
  - reflexivity.
  - reflexivity.
  - reflexivity.
  - reflexivity.
Defined.

(** ** Sequences of adders *)

Lemma add_call_add rt fs c s :
  store_of (add rt fs c s) = store_of (call_add rt fs c s) /\
  io_of (add rt fs c s) = io_of (call_add rt fs c s) /\
  outcome_of (call_add rt fs c s)
  = match outcome_of (add rt fs c s) with
    | Ok _ => Ok tt
    | Throw e => Throw e
    end.
Proof.
  assert (forall (m : M value) (k : value -> M unit),
             (forall f s', outcome_of (k f s') = Ok tt
                           \/ exists e, outcome_of (k f s') = Throw e) ->
             store_of (bind m (fun f => k f >> ret f) s) = store_of (bind m k s)
             /\ io_of (bind m (fun f => k f >> ret f) s) = io_of (bind m k s)
             /\ outcome_of (bind m k s)
                = match outcome_of (bind m (fun f => k f >> ret f) s) with
                  | Ok _ => Ok tt
                  | Throw e => Throw e
                  end) as Hgen.
  { intros m k Hk. unfold bind, ret.
    destruct (outcome_of (m s)) as [f|e]; simpl; [|done].
    destruct (Hk f (store_of (m s))) as [-> | [e ->]]; simpl;
      by rewrite ?(right_id [] _). }
  assert (forall f s', outcome_of (addConfig rt fs f s') = Ok tt
                       \/ exists e, outcome_of (addConfig rt fs f s') = Throw e)
    as Hunit.
  { intros f s'. destruct (outcome_of (addConfig rt fs f s')) as [[]|e]; eauto. }
  destruct c as [v|path|str]; unfold add, call_add, fragment.
  - destruct (Hgen (ret v) (addConfig rt fs) Hunit) as (H1 & H2 & H3).
    rewrite (bind_ret v (addConfig rt fs) s) in H1, H2, H3. done.
  - apply (Hgen (loadFile rt fs path) (addConfig rt fs) Hunit).
  - apply (Hgen (lift (parseFile rt str None)) (addConfig rt fs) Hunit).
Qed.

Lemma add_all_call_all rt fs cs :
  forall s,
    store_of (add_all rt fs cs s) = store_of (call_all rt fs cs s) /\
    outcome_of (call_all rt fs cs s)
    = match outcome_of (add_all rt fs cs s) with
      | Ok _ => Ok tt
      | Throw e => Throw e
      end.
Proof.
  induction cs as [|c rest IH]; intros s; [done|].
  destruct (add_call_add rt fs c s) as (Hst & _ & Hout).
  cbn [add_all call_all].
  destruct (outcome_of (add rt fs c s)) as [f|e] eqn:Hf.
  - rewrite (bind_ok _ _ _ _ Hf), (bind_ok _ _ _ _ Hout).
    cbn [outcome_of store_of]. rewrite <- Hst.
    destruct (IH (store_of (add rt fs c s))) as [Hst' Hout'].
    destruct (outcome_of (add_all rt fs rest (store_of (add rt fs c s))))
      as [fr|e] eqn:Hr.
    + by rewrite (bind_ok _ _ _ _ Hr).
    + by rewrite (bind_throw _ _ _ _ Hr).
  - rewrite (bind_throw _ _ _ _ Hf), (bind_throw _ _ _ _ Hout). by simpl.
Qed.

(** One adder that returns: the fragment is merged into the snapshot of
    before, and later loads under the same disk give what they gave. *)
Lemma add_step rt fs c s f :
  outcome_of (add rt fs c s) = Ok f ->
  same_loads rt fs s (store_of (add rt fs c s)) /\
  exists d, outcome_of (toJSON rt fs s) = Ok d /\
            config (store_of (add rt fs c s)) = deepMergeExtend d f.
Proof.
  intros Hok.
  split.
  { apply (add_keeps (same_loads rt fs) rt fs);
      [apply loadFile_same_loads|apply set_config_same_loads]. }
  assert (config (store_of (fragment rt fs c s)) = config s) as Hcfg.
  { destruct c; simpl; try done. apply (loadFile_reads rt fs path s). }
  pose proof (fragment_keeps (same_loads rt fs) rt fs
                (loadFile_same_loads rt fs) c s) as Hsame.
  unfold add in *.
  destruct (outcome_of (fragment rt fs c s)) as [f'|e] eqn:Hf;
    [|by rewrite (bind_throw _ _ _ _ Hf) in Hok].
  rewrite (bind_ok _ _ _ _ Hf) in *. cbn [outcome_of store_of] in *.
  set (s1 := store_of (fragment rt fs c s)) in *.
  rewrite <- (toJSON_same_outcome rt fs s s1 Hsame Hcfg).
  destruct (outcome_of (toJSON rt fs s1)) as [d|e] eqn:Hd.
  - unfold bind, ret in *. rewrite (addConfig_ok rt fs f' s1 d Hd) in *.
    simpl in *. injection Hok as ->. by exists d.
  - unfold bind in Hok. by rewrite (addConfig_throw rt fs f' s1 e Hd) in Hok.
Qed.

(** Once set to an object, the accumulated state keeps the value of every
    key that no later fragment, an object, has. *)
Lemma add_all_keeps_key rt fs k cs :
  forall s frags (m : gmap string value),
    config s = VObj m ->
    outcome_of (add_all rt fs cs s) = Ok frags ->
    Forall (fun f => is_object f = true /\ has_key k f = false) frags ->
    same_loads rt fs s (store_of (add_all rt fs cs s)) /\
    exists m', config (store_of (add_all rt fs cs s)) = VObj m' /\
               m' !! k = m !! k.
Proof.
  induction cs as [|c rest IH]; intros s frags m Hm Hok Hfr.
  - simpl. split; [reflexivity|]. by exists m.
  - simpl in *.
    destruct (outcome_of (add rt fs c s)) as [f|e] eqn:Hf;
      [|by rewrite (bind_throw _ _ _ _ Hf) in Hok].
    rewrite (bind_ok _ _ _ _ Hf) in *. cbn [outcome_of store_of] in *.
    destruct (add_step rt fs c s f Hf) as (Hsame1 & d & Hd & Hc1).
    set (s1 := store_of (add rt fs c s)) in *.
    destruct (outcome_of (add_all rt fs rest s1)) as [fr|e] eqn:Hrest;
      [|by rewrite (bind_throw _ _ _ _ Hrest) in Hok].
    rewrite (bind_ok _ _ _ _ Hrest) in *. cbn [outcome_of store_of ret] in *.
    injection Hok as <-. apply Forall_cons in Hfr as [[Hobj Hkf] Hfr].
    rewrite toJSON_set in Hd by (by rewrite Hm). simpl in Hd.
    rewrite Hm in Hd. injection Hd as <-.
    destruct f as [| | | | | |sm]; try done.
    destruct (deepMergeExtend_keeps_key m sm k) as (m1 & Hm1 & Hk1).
    { simpl in Hkf. by destruct (sm !! k). }
    destruct (IH s1 fr m1) as (Hsame2 & m2 & Hm2 & Hk2); [congruence|done..|].
    split; [by etrans|]. exists m2. split; [done|congruence].
Qed.

Lemma lacks_default_keys_key f k :
  lacks_default_keys f = true -> k ∈ default_keys -> has_key k f = false.
Proof.
  unfold lacks_default_keys. rewrite forallb_forall. intros Hall Hk.
  apply negb_true_iff, Hall. by apply list_elem_of_In.
Qed.

(** C10.  A store on which no [addX] has been called yet, and a nonempty
    sequence of [addConfig], [addFile] and [addString] calls that all return
    and whose fragments are objects with none of the keys [APP_NAME],
    [APP_VERSION], [APP_ROOT]: the first call has seeded the accumulated
    state from the defaults, so that [this.config] is afterwards an object
    in which each of the three keys is present with the value that
    [getDefaults()] gave before the calls and gives after them, and that
    object is the snapshot. *)
Theorem defaults_stay_in_snapshot
        (rt : Runtime) (fs : disk) (s : Config) (cs : list add_call)
        (frags : list value) :
  config s = VUndefined ->
  cs <> [] ->
  outcome_of (add_all rt fs cs s) = Ok frags ->
  Forall (fun f => is_object f = true /\ lacks_default_keys f = true) frags ->
  let s' := store_of (call_all rt fs cs s) in
  outcome_of (call_all rt fs cs s) = Ok tt /\
  exists d m : gmap string value,
    outcome_of (getDefaults rt fs s) = Ok (VObj d) /\
    outcome_of (getDefaults rt fs s') = Ok (VObj d) /\
    config s' = VObj m /\
    outcome_of (toJSON rt fs s') = Ok (VObj m) /\
    forall k, k ∈ default_keys -> is_Some (d !! k) /\ m !! k = d !! k.
Proof.
  intros Hunset Hne Hok Hfr s'.
  destruct (add_all_call_all rt fs cs s) as [Hst Hout].
  rewrite Hok in Hout. split; [done|]. unfold s'. rewrite <- Hst. clear s' Hst.
  destruct cs as [|c rest]; [done|]. cbn [add_all] in *.
  destruct (outcome_of (add rt fs c s)) as [f|e] eqn:Hf;
    [|by rewrite (bind_throw _ _ _ _ Hf) in Hok].
  rewrite (bind_ok _ _ _ _ Hf) in *. cbn [outcome_of store_of] in *.
  destruct (add_step rt fs c s f Hf) as (Hsame1 & d & Hd & Hc1).
  set (s1 := store_of (add rt fs c s)) in *.
  destruct (outcome_of (add_all rt fs rest s1)) as [fr|e] eqn:Hrest;
    [|by rewrite (bind_throw _ _ _ _ Hrest) in Hok].
  rewrite (bind_ok _ _ _ _ Hrest) in *. cbn [outcome_of store_of ret] in *.
  injection Hok as <-. apply Forall_cons in Hfr as [[Hobj Hkf] Hfr].
  rewrite toJSON_unset in Hd by (by rewrite Hunset).
  pose proof Hd as Hshape.
  apply getDefaults_object in Hshape as (name & version & ->).
  set (dm := <["APP_NAME" := name]>
             (<["APP_VERSION" := version]> {["APP_ROOT" := VStr (appRoot s)]}))
    in *.
  destruct f as [| | | | | |sm]; try done.
  assert (forall k, k ∈ default_keys ->
            same_loads rt fs s1 (store_of (add_all rt fs rest s1)) /\
            exists m2, config (store_of (add_all rt fs rest s1)) = VObj m2 /\
                       m2 !! k = dm !! k) as Hkeys.
  { intros k Hk.
    destruct (deepMergeExtend_keeps_key dm sm k) as (m1 & Hm1 & Hk1).
    { pose proof (lacks_default_keys_key _ k Hkf Hk) as Hno.
      simpl in Hno. by destruct (sm !! k). }
    destruct (add_all_keeps_key rt fs k rest s1 fr m1)
      as (Hsame2 & m2 & Hm2 & Hk2); [congruence|done| |].
    - eapply Forall_impl; [exact Hfr|]. intros g [Hg1 Hg2].
      split; [done|]. by apply lacks_default_keys_key.
    - split; [done|]. exists m2. split; [done|congruence]. }
  destruct (Hkeys "APP_NAME") as (Hsame2 & m2 & Hm2 & _);
    [by apply list_elem_of_here|].
  assert (same_loads rt fs s (store_of (add_all rt fs rest s1))) as Hsame
    by (by etrans).
  exists dm, m2. split; [done|]. split; [|split; [done|split]].
  - by rewrite (getDefaults_same_outcome rt fs s _ Hsame).
  - by rewrite toJSON_set; rewrite Hm2.
  - intros k Hk. split.
    + unfold default_keys in Hk.
      repeat (apply elem_of_cons in Hk as [->|Hk]; [by eexists|]).
      by apply elem_of_nil in Hk.
    + destruct (Hkeys k Hk) as (_ & m2' & Hm2' & Hk2).
      rewrite Hm2 in Hm2'. by injection Hm2' as <-.
Qed.

Lemma defaults_stay_in_snapshot_witness :
  exists d m : gmap string value,
    outcome_of (getDefaults Sample.rt Sample.app_disk
                  (store_of (call_all Sample.rt Sample.app_disk
                               [AddFile "a.yaml"; AddConfig (VObj Sample.db_first)]
                               Sample.fresh))) = Ok (VObj d) /\
    config (store_of (call_all Sample.rt Sample.app_disk
                        [AddFile "a.yaml"; AddConfig (VObj Sample.db_first)]
                        Sample.fresh)) = VObj m /\
    forall k, k ∈ default_keys -> is_Some (d !! k) /\ m !! k = d !! k.
Proof.
  destruct (defaults_stay_in_snapshot
              Sample.rt Sample.app_disk Sample.fresh
              [AddFile "a.yaml"; AddConfig (VObj Sample.db_first)]
              [Sample.port_5433; VObj Sample.db_first])
    as (_ & d & m & _ & Hd & Hm & _ & Hk).
  - reflexivity.
  - discriminate.
  - vm_compute. reflexivity.
  - repeat constructor.
  - exists d, m. split; [exact Hd|]. split; [exact Hm|exact Hk].
Defined.

(** * Further properties of the store *)

(** ** [loadFile] *)

(** X1.  Once [loadFile] has returned a truthy value for a path, every later
    [loadFile] of a path that resolves to the same absolute path, after
    whatever calls and under whatever disk (the file changed, deleted or
    made unparsable), returns that value from the cache: no disk access, no
    change of the store. *)
Theorem loaded_file_is_served_from_cache
        (rt : Runtime) (fs : disk) (p q : string) (s : Config) (v : value)
        (calls : list (disk * method)) (fs' : disk) :
  outcome_of (loadFile rt fs p s) = Ok v ->
  truthy v = true ->
  resolve rt (appRoot s) q = resolve rt (appRoot s) p ->
  let s2 := invoke_all rt calls (store_of (loadFile rt fs p s)) in
  loadFile rt fs' q s2 = Result (Ok v) s2 [].
Proof.
  intros Hload Hv Hq s2.
  pose proof (loadFile_caches rt fs p s v Hload Hv) as Hc.
  destruct (loadFile_reads rt fs p s) as [(Hroot & _ & _) _].
  destruct (invoke_all_cache rt calls _ _ _ Hc Hv) as [Hc2 Hroot2].
  fold s2 in Hc2, Hroot2.
  rewrite loadFile_hit; rewrite Hroot2, Hroot, Hq, Hc2; done.
Qed.

Lemma loaded_file_is_served_from_cache_witness :
  loadFile Sample.rt Sample.broken_pkg_disk "/app/a.json"
           (invoke_all Sample.rt [(Sample.bad_disk, MAddFile "bad.json")]
              (store_of (loadFile Sample.rt Sample.app_disk "a.json"
                                  Sample.fresh)))
  = Result (Ok Sample.port_5433)
           (invoke_all Sample.rt [(Sample.bad_disk, MAddFile "bad.json")]
              (store_of (loadFile Sample.rt Sample.app_disk "a.json"
                                  Sample.fresh)))
           [].
Proof.
  apply (loaded_file_is_served_from_cache
           Sample.rt Sample.app_disk "a.json" "/app/a.json" Sample.fresh
           Sample.port_5433 [(Sample.bad_disk, MAddFile "bad.json")]
           Sample.broken_pkg_disk); vm_compute; reflexivity.
Defined.

(** X2.  A path that exists and cannot be read (a directory, a file without
    permission): the [try] of [loadFile] covers [readFileSync], so the error
    of the read is thrown with the resolved path as [fileName] and in front
    of its message; nothing is cached and the store is what it was, also
    through [addFile]. *)
Theorem loadFile_unreadable_file
        (rt : Runtime) (fs : disk) (p : string) (s : Config) (e : error) :
  truthy (slot_value (fileCache s !! resolve rt (appRoot s) p)) = false ->
  fs !! resolve rt (appRoot s) p = Some (Unreadable e) ->
  let path := resolve rt (appRoot s) p in
  let err := {| message := "Error loading config " ++ path ++ ": "
                             ++ message e;
                fileName := Some path |} in
  loadFile rt fs p s
  = Result (Throw err) s [ExistsSync path; ReadFileSync path] /\
  addFile rt fs p s
  = Result (Throw err) s [ExistsSync path; ReadFileSync path].
Proof.
  intros Hmiss Hfile path err.
  assert (loadFile rt fs p s
          = Result (Throw err) s [ExistsSync path; ReadFileSync path])
    as Hload.
  { rewrite loadFile_miss by done. unfold loadFromDisk, disk_io.
    by rewrite Hfile. }
  split; [done|].
  unfold addFile. rewrite (bind_throw _ _ s err); by rewrite Hload.
Qed.

Lemma loadFile_unreadable_file_witness :
  outcome_of (loadFile Sample.rt More.odd_disk "conf.json" Sample.fresh)
  = Throw {| message := "Error loading config /app/conf.json: "
                          ++ "EISDIR: illegal operation on a directory, read";
             fileName := Some "/app/conf.json" |} /\
  store_of (loadFile Sample.rt More.odd_disk "conf.json" Sample.fresh)
  = Sample.fresh.
Proof.
  destruct (loadFile_unreadable_file
              Sample.rt More.odd_disk "conf.json" Sample.fresh More.EISDIR)
    as [Hload _]; [vm_compute; reflexivity..|].
  rewrite Hload. split; reflexivity.
Defined.

(** X3.  [loadFile] writes to the cache at the resolved path only: the
    entry of every other path, the root and the accumulated state are as
    before, whether the call returns or throws. *)
Theorem loadFile_touches_one_entry
        (rt : Runtime) (fs : disk) (p q : string) (s : Config) :
  q <> resolve rt (appRoot s) p ->
  let s' := store_of (loadFile rt fs p s) in
  fileCache s' !! q = fileCache s !! q /\
  config s' = config s /\
  appRoot s' = appRoot s.
Proof.
  intros Hq s'.
  destruct (loadFile_reads rt fs p s) as [(Hroot & _ & _) Hcfg].
  split; [|done]. unfold s'.
  destruct (truthy (slot_value (fileCache s !! resolve rt (appRoot s) p)))
    eqn:Hc.
  - by rewrite loadFile_hit.
  - rewrite loadFile_miss by done.
    destruct (loadFromDisk rt fs _) as [v|e]; [|done].
    simpl. by rewrite lookup_insert_ne.
Qed.

Lemma loadFile_touches_one_entry_witness :
  fileCache (store_of (loadFile Sample.rt Sample.app_disk "a.yaml"
                                (store_of (loadFile Sample.rt Sample.app_disk
                                                    "a.json" Sample.fresh))))
  !! "/app/a.json"
  = Some Sample.port_5433.
Proof.
  destruct (loadFile_touches_one_entry
              Sample.rt Sample.app_disk "a.yaml" "/app/a.json"
              (store_of (loadFile Sample.rt Sample.app_disk "a.json"
                                  Sample.fresh)))
    as [Hq _]; [vm_compute; discriminate|].
  rewrite Hq. vm_compute. reflexivity.
Defined.

(** X4.  The parser of a file is chosen by the extension of the resolved
    path, compared exactly: [.yaml] and [.yml] go to [yaml.load], every
    other extension (none, [.json], [.YAML], ...) to [JSON5.parse].  For a
    path the cache does not serve and a readable file, [loadFile] returns
    what that parser returns, or throws its error with the path attached. *)
Theorem loadFile_parser_by_extension
        (rt : Runtime) (fs : disk) (p : string) (s : Config) (content : string) :
  truthy (slot_value (fileCache s !! resolve rt (appRoot s) p)) = false ->
  fs !! resolve rt (appRoot s) p = Some (File content) ->
  let path := resolve rt (appRoot s) p in
  let parsed :=
      if bool_decide (extname rt path = ".yaml" \/ extname rt path = ".yml")
      then yaml_load rt content
      else JSON5_parse rt content in
  outcome_of (loadFile rt fs p s)
  = match parsed with
    | Ok v => Ok v
    | Throw e => Throw (loadError path e)
    end.
Proof.
  intros Hmiss Hfile path parsed.
  rewrite loadFile_miss by done. unfold loadFromDisk. fold path.
  replace (fs !! path) with (Some (File content)).
  assert (parseFile rt content (Some (extname rt path)) = parsed) as ->.
  { unfold parsed, parseFile. case_bool_decide as Hext.
    - by destruct Hext as [-> | ->].
    - destruct (extname rt path) as [|[[] [] [] [] [] [] [] []] h]; try done;
        repeat (destruct h as [|[[] [] [] [] [] [] [] []] h]; try done);
        exfalso; apply Hext; auto. }
  by destruct parsed.
Qed.

Lemma loadFile_parser_by_extension_witness :
  outcome_of (loadFile Sample.rt More.odd_disk "A.YAML" Sample.fresh)
  = Ok Sample.port_5433.
Proof.
  rewrite (loadFile_parser_by_extension
             Sample.rt More.odd_disk "A.YAML" Sample.fresh "{ port: 5433 }");
    vm_compute; reflexivity.
Defined.

(** X5.  A [loadFile] that returned returns the same value when it is
    called again with the disk unchanged, whether the value is served from
    the cache or (a falsy value) read again, and the store after the second
    call is the store after the first. *)
Theorem loadFile_repeatable
        (rt : Runtime) (fs : disk) (p : string) (s : Config) (v : value) :
  outcome_of (loadFile rt fs p s) = Ok v ->
  let s1 := store_of (loadFile rt fs p s) in
  outcome_of (loadFile rt fs p s1) = Ok v /\
  store_of (loadFile rt fs p s1) = s1.
Proof. intros Hload s1. by apply loadFile_again. Qed.

Lemma loadFile_repeatable_witness :
  outcome_of (loadFile Sample.rt Sample.bad_disk "empty.yaml"
                (store_of (loadFile Sample.rt Sample.bad_disk "empty.yaml"
                                    Sample.fresh)))
  = Ok VUndefined.
Proof.
  apply (loadFile_repeatable
           Sample.rt Sample.bad_disk "empty.yaml" Sample.fresh VUndefined).
  vm_compute. reflexivity.
Defined.

(** ** What no method does to the cache *)

Section MethodsPreserve.

Context (R : Config -> Config -> Prop) `{!PreOrder R} (rt : Runtime).
Hypothesis loadFile_R : forall fs p, preserves R (loadFile rt fs p).
Hypothesis set_config_R : forall v, preserves R (set_config v).

Lemma getDefaults_preserves fs : preserves R (getDefaults rt fs).
Proof.
  unfold getDefaults, getPackage.
  apply preserves_bind; [apply _|apply loadFile_R|intros p1].
  apply preserves_bind; [apply _|apply preserves_lift, _|intros name].
  apply preserves_bind; [apply _|apply loadFile_R|intros p2].
  apply preserves_bind; [apply _|apply preserves_lift, _|intros version].
  apply preserves_bind; [apply _|apply preserves_this, _|intros s'].
  apply preserves_ret, _.
Qed.

Lemma toJSON_preserves fs : preserves R (toJSON rt fs).
Proof.
  intros s. destruct (truthy (config s)) eqn:Hc.
  - rewrite toJSON_set by done. reflexivity.
  - rewrite toJSON_unset by done. apply getDefaults_preserves.
Qed.

Lemma addConfig_preserves fs c : preserves R (addConfig rt fs c).
Proof.
  unfold addConfig.
  apply preserves_bind; [apply _|apply toJSON_preserves|intros d].
  apply set_config_R.
Qed.

Lemma invoke_preserves fs m s : R s (invoke rt fs m s).
Proof.
  destruct m as [path|str|str|c| | |path|]; simpl.
  - unfold addFile.
    apply preserves_bind; [apply _|apply loadFile_R|intros c].
    apply addConfig_preserves.
  - unfold addString.
    apply preserves_bind; [apply _|apply preserves_lift, _|intros c].
    apply addConfig_preserves.
  - unfold addScript.
    apply preserves_bind; [apply _|apply toJSON_preserves|intros c].
    apply preserves_bind; [apply _|apply set_config_R|intros _].
    destruct c; try apply preserves_throw, _.
    destruct (runInNewContext rt str m) as [m' [e|]];
      (apply preserves_bind; [apply _|apply set_config_R|intros _]).
    + apply preserves_throw, _.
    + apply preserves_ret, _.
  - apply addConfig_preserves.
  - apply loadFile_R.
  - apply getDefaults_preserves.
  - apply loadFile_R.
  - apply toJSON_preserves.
Qed.

Lemma invoke_all_preserves calls : forall s, R s (invoke_all rt calls s).
Proof.
  induction calls as [|[fs m] rest IH]; intros s; [reflexivity|].
  simpl. etrans; [apply invoke_preserves|apply IH].
Qed.

End MethodsPreserve.

#[global] Instance keeps_entries_preorder : PreOrder keeps_entries.
Proof.
  split.
  - intros s. by split.
  - intros s1 s2 s3 [Hr1 Hk1] [Hr2 Hk2]. split; [congruence|].
    intros path Hp. by apply Hk2, Hk1.
Qed.

Lemma loadFile_keeps_entries rt fs p : preserves keeps_entries (loadFile rt fs p).
Proof.
  intros s. destruct (loadFile_reads rt fs p s) as [(Hroot & _ & _) _].
  split; [done|]. intros path Hp.
  destruct (truthy (slot_value (fileCache s !! resolve rt (appRoot s) p)))
    eqn:Hc.
  - by rewrite loadFile_hit.
  - rewrite loadFile_miss by done.
    destruct (loadFromDisk rt fs _) as [v|e]; [|done].
    simpl. rewrite lookup_insert. by case_decide.
Qed.

(** X6.  No method forgets a cached path or changes the root: after any
    sequence of calls, under any disks, every path that had a cache entry
    still has one, and [appRoot] is what the constructor set. *)
Theorem cache_never_shrinks
        (rt : Runtime) (calls : list (disk * method)) (s : Config)
        (path : string) :
  is_Some (fileCache s !! path) ->
  is_Some (fileCache (invoke_all rt calls s) !! path) /\
  appRoot (invoke_all rt calls s) = appRoot s.
Proof.
  intros Hp.
  destruct (invoke_all_preserves keeps_entries rt
              (loadFile_keeps_entries rt)
              (fun v s' => conj eq_refl (fun _ H => H)) calls s)
    as [Hroot Hkeep].
  split; [by apply Hkeep|done].
Qed.

Lemma cache_never_shrinks_witness :
  is_Some (fileCache
             (invoke_all Sample.rt
                [(Sample.bad_disk, MAddFile "bad.json");
                 (Sample.broken_pkg_disk, MGetDefaults)]
                (store_of (loadFile Sample.rt Sample.bad_disk "empty.yaml"
                                    Sample.fresh)))
           !! "/app/empty.yaml").
Proof.
  apply (cache_never_shrinks
           Sample.rt
           [(Sample.bad_disk, MAddFile "bad.json");
            (Sample.broken_pkg_disk, MGetDefaults)]
           (store_of (loadFile Sample.rt Sample.bad_disk "empty.yaml"
                               Sample.fresh))
           "/app/empty.yaml").
  vm_compute. eexists. reflexivity.
Defined.

(** ** [getDefaults] and [toJSON] *)

(** A run of [getDefaults] whose package loads and has readable
    properties: the result, the store and the disk accesses. *)
Lemma getDefaults_run rt fs s pkg name version :
  outcome_of (getPackage rt fs s) = Ok pkg ->
  getProp pkg "name" = Ok name ->
  getProp pkg "version" = Ok version ->
  getDefaults rt fs s
  = Result (Ok (VObj (<["APP_NAME" := name]>
                      (<["APP_VERSION" := version]>
                       {["APP_ROOT" := VStr (appRoot s)]}))))
           (store_of (getPackage rt fs s))
           (io_of (getPackage rt fs s)
            ++ io_of (getPackage rt fs (store_of (getPackage rt fs s)))).
Proof.
  intros Hpkg Hname Hversion.
  destruct (loadFile_again rt fs "package.json" s pkg Hpkg) as [Hagain Hstore].
  destruct (getPackage_reads rt fs s) as [[Hroot _] _].
  unfold getDefaults. rewrite (bind_ok _ _ _ _ Hpkg), Hname, bind_lift_ok.
  unfold getPackage in *.
  rewrite (bind_ok _ _ _ _ Hagain), Hversion, bind_lift_ok, bind_this.
  unfold ret. cbn [outcome_of store_of io_of].
  by rewrite Hstore, Hroot, (right_id [] _).
Qed.

Lemma getDefaults_store rt fs s pkg :
  outcome_of (getPackage rt fs s) = Ok pkg ->
  store_of (getDefaults rt fs s) = store_of (getPackage rt fs s).
Proof.
  intros Hpkg.
  destruct (loadFile_again rt fs "package.json" s pkg Hpkg) as [Hagain Hstore].
  unfold getDefaults. rewrite (bind_ok _ _ _ _ Hpkg). cbn [store_of].
  destruct (getProp pkg "name") as [name|e];
    [rewrite bind_lift_ok|by rewrite bind_lift_throw].
  unfold getPackage in *. rewrite (bind_ok _ _ _ _ Hagain). cbn [store_of].
  destruct (getProp pkg "version") as [version|e];
    [rewrite bind_lift_ok|by rewrite bind_lift_throw].
  by rewrite bind_this.
Qed.

(** X7.  Without a [package.json] (and none cached), [getDefaults] does not
    throw: the name and the version are [undefined], the root is the
    store's; the missing file is looked for once, its [{}] is cached, and
    the second [getPackage] is served from the cache. *)
Theorem getDefaults_without_package
        (rt : Runtime) (fs : disk) (s : Config) :
  truthy (slot_value (fileCache s !! resolve rt (appRoot s) "package.json"))
  = false ->
  fs !! resolve rt (appRoot s) "package.json" = None ->
  getDefaults rt fs s
  = Result (Ok (VObj (<["APP_NAME" := VUndefined]>
                      (<["APP_VERSION" := VUndefined]>
                       {["APP_ROOT" := VStr (appRoot s)]}))))
           (store_of (set_fileCache (resolve rt (appRoot s) "package.json")
                                    (VObj ∅) s))
           [ExistsSync (resolve rt (appRoot s) "package.json")].
Proof.
  intros Hmiss Hnone.
  set (path := resolve rt (appRoot s) "package.json") in *.
  set (s1 := store_of (set_fileCache path (VObj ∅) s)).
  assert (getPackage rt fs s = Result (Ok (VObj ∅)) s1 [ExistsSync path])
    as Hfirst.
  { unfold getPackage. rewrite loadFile_miss by done.
    unfold loadFromDisk, disk_io. fold path. by rewrite Hnone. }
  assert (getPackage rt fs s1 = Result (Ok (VObj ∅)) s1 []) as Hsecond.
  { unfold getPackage. rewrite loadFile_hit; simpl; fold path;
      by rewrite lookup_insert_eq. }
  rewrite (getDefaults_run rt fs s (VObj ∅) VUndefined VUndefined);
    [|by rewrite Hfirst|done..].
  rewrite Hfirst. cbn [store_of io_of]. by rewrite Hsecond.
Qed.

Lemma getDefaults_without_package_witness :
  outcome_of (toJSON Sample.rt More.no_pkg_disk Sample.fresh)
  = Ok (VObj (<["APP_NAME" := VUndefined]>
              (<["APP_VERSION" := VUndefined]>
               {["APP_ROOT" := VStr "/app"]}))).
Proof.
  rewrite toJSON_unset by reflexivity.
  rewrite (getDefaults_without_package Sample.rt More.no_pkg_disk Sample.fresh);
    reflexivity.
Defined.

(** X8.  A [package.json] whose parsed value is [null] or [undefined]:
    [getDefaults] throws when it reads [.name], outside the [try] of
    [loadFile], so the error has no [fileName]; a store with no accumulated
    state then has no snapshot, and [addConfig] throws the same error and
    leaves the accumulated state unset. *)
Theorem getDefaults_nullish_package
        (rt : Runtime) (fs : disk) (s : Config) (content : string)
        (pkg c : value) :
  truthy (slot_value (fileCache s !! resolve rt (appRoot s) "package.json"))
  = false ->
  fs !! resolve rt (appRoot s) "package.json" = Some (File content) ->
  parseFile rt content
            (Some (extname rt (resolve rt (appRoot s) "package.json")))
  = Ok pkg ->
  pkg = VNull \/ pkg = VUndefined ->
  truthy (config s) = false ->
  exists e,
    getProp pkg "name" = Throw e /\
    fileName e = None /\
    outcome_of (getDefaults rt fs s) = Throw e /\
    outcome_of (toJSON rt fs s) = Throw e /\
    outcome_of (addConfig rt fs c s) = Throw e /\
    config (store_of (addConfig rt fs c s)) = config s.
Proof.
  intros Hmiss Hfile Hparse Hnull Hunset.
  assert (outcome_of (getPackage rt fs s) = Ok pkg) as Hpkg.
  { unfold getPackage. rewrite loadFile_miss by done. unfold loadFromDisk.
    by rewrite Hfile, Hparse. }
  assert (exists e, getProp pkg "name" = Throw e /\ fileName e = None)
    as (e & He & Hname) by (destruct Hnull as [-> | ->]; by eexists).
  assert (outcome_of (getDefaults rt fs s) = Throw e) as Hd
    by (by rewrite (getDefaults_outcome rt fs s pkg Hpkg), He).
  assert (outcome_of (toJSON rt fs s) = Throw e) as Hj
    by (by rewrite toJSON_unset).
  exists e. repeat split; try done.
  - by rewrite (addConfig_throw rt fs c s e Hj).
  - rewrite (addConfig_throw rt fs c s e Hj). apply (toJSON_reads rt fs s).
Qed.

Lemma getDefaults_nullish_package_witness :
  exists e,
    outcome_of (toJSON More.rt More.null_pkg_disk (new_Config More.rt (Some "/app")))
    = Throw e /\ fileName e = None.
Proof.
  destruct (getDefaults_nullish_package
              More.rt More.null_pkg_disk (new_Config More.rt (Some "/app"))
              "null" VNull VNull)
    as (e & _ & Hname & _ & Hj & _);
    [reflexivity|reflexivity|reflexivity|by left|reflexivity|].
  exists e. split; [exact Hj|exact Hname].
Defined.

(** X9.  A [package.json] that parses to a truthy value, with a name and a
    version that are not objects or arrays, is read once per store: the
    first [getDefaults] makes one [existsSync] and one [readFileSync] (its
    second [getPackage] is a cache hit), and after any further method calls,
    under any disks, every later [getDefaults] returns the same defaults
    without a disk access or a change of the store. *)
Theorem package_is_read_once
        (rt : Runtime) (fs : disk) (s : Config) (content : string)
        (pkg name version : value) (calls : list (disk * method))
        (fs' : disk) :
  truthy (slot_value (fileCache s !! resolve rt (appRoot s) "package.json"))
  = false ->
  fs !! resolve rt (appRoot s) "package.json" = Some (File content) ->
  parseFile rt content
            (Some (extname rt (resolve rt (appRoot s) "package.json")))
  = Ok pkg ->
  truthy pkg = true ->
  getProp pkg "name" = Ok name ->
  getProp pkg "version" = Ok version ->
  is_primitive name = true ->
  is_primitive version = true ->
  let d := VObj (<["APP_NAME" := name]>
                 (<["APP_VERSION" := version]>
                  {["APP_ROOT" := VStr (appRoot s)]})) in
  let s1 := store_of (getDefaults rt fs s) in
  let s2 := invoke_all rt calls s1 in
  outcome_of (getDefaults rt fs s) = Ok d /\
  io_of (getDefaults rt fs s)
  = [ExistsSync (resolve rt (appRoot s) "package.json");
     ReadFileSync (resolve rt (appRoot s) "package.json")] /\
  getDefaults rt fs' s2 = Result (Ok d) s2 [].
Proof.
  intros Hmiss Hfile Hparse Hpkg Hname Hversion _ _ d s1 s2.
  set (path := resolve rt (appRoot s) "package.json") in *.
  set (s0 := store_of (set_fileCache path pkg s)).
  assert (getPackage rt fs s
          = Result (Ok pkg) s0 [ExistsSync path; ReadFileSync path]) as Hfirst.
  { unfold getPackage. rewrite loadFile_miss by done.
    unfold loadFromDisk, disk_io. fold path. by rewrite Hfile, Hparse. }
  assert (forall fs0 s3, fileCache s3 !! path = Some pkg ->
                         appRoot s3 = appRoot s ->
                         getPackage rt fs0 s3 = Result (Ok pkg) s3 []) as Hhit.
  { intros fs0 s3 Hc Hr. unfold getPackage.
    rewrite loadFile_hit; rewrite Hr; fold path; by rewrite Hc. }
  assert (fileCache s0 !! path = Some pkg) as Hc0 by apply lookup_insert_eq.
  assert (getDefaults rt fs s
          = Result (Ok d) s0 [ExistsSync path; ReadFileSync path]) as Hrun.
  { rewrite (getDefaults_run rt fs s pkg name version)
      by (by rewrite ?Hfirst).
    rewrite Hfirst. cbn [store_of io_of]. by rewrite (Hhit fs s0). }
  assert (s1 = s0) as Hs1 by (unfold s1; by rewrite Hrun).
  split; [by rewrite Hrun|]. split; [by rewrite Hrun|].
  destruct (invoke_all_cache rt calls s1 path pkg) as [Hc2 Hr2];
    [by rewrite Hs1|done|].
  fold s2 in Hc2, Hr2.
  assert (appRoot s2 = appRoot s) as Hroot by (by rewrite Hr2, Hs1).
  rewrite (getDefaults_run rt fs' s2 pkg name version)
    by (by rewrite ?(Hhit fs' s2)).
  rewrite !(Hhit fs' s2) by done. cbn [store_of io_of].
  rewrite (Hhit fs' s2) by done. unfold d. by rewrite Hroot.
Qed.

Lemma package_is_read_once_witness :
  getDefaults Sample.rt Sample.broken_pkg_disk
    (invoke_all Sample.rt [(Sample.bad_disk, MAddFile "bad.json")]
       (store_of (getDefaults Sample.rt Sample.app_disk Sample.fresh)))
  = Result (Ok (VObj Sample.defaults))
      (invoke_all Sample.rt [(Sample.bad_disk, MAddFile "bad.json")]
         (store_of (getDefaults Sample.rt Sample.app_disk Sample.fresh)))
      [].
Proof.
  apply (package_is_read_once
           Sample.rt Sample.app_disk Sample.fresh
           "{ name: 'shop', version: '1.2.3' }" Sample.pkg
           (VStr "shop") (VStr "1.2.3")
           [(Sample.bad_disk, MAddFile "bad.json")] Sample.broken_pkg_disk);
    reflexivity.
Defined.

(** X10.  [toJSON] never sets the accumulated state: [this.config] and the
    root are after the call what they were before; and when it returns a
    snapshot, a second [toJSON] with the disk unchanged returns the same
    snapshot and leaves the store as the first did. *)
Theorem toJSON_reads_only_and_is_stable
        (rt : Runtime) (fs : disk) (s : Config) (d : value) :
  outcome_of (toJSON rt fs s) = Ok d ->
  let s1 := store_of (toJSON rt fs s) in
  config s1 = config s /\
  appRoot s1 = appRoot s /\
  outcome_of (toJSON rt fs s1) = Ok d /\
  store_of (toJSON rt fs s1) = s1.
Proof.
  intros Hd s1.
  destruct (toJSON_reads rt fs s) as [(Hroot & _ & _) Hcfg].
  split; [done|]. split; [done|]. unfold s1 in *.
  destruct (truthy (config s)) eqn:Hc.
  - rewrite (toJSON_set rt fs s Hc) in *. cbn [store_of] in *.
    by rewrite (toJSON_set rt fs s Hc).
  - rewrite (toJSON_unset rt fs s Hc) in *.
    rewrite toJSON_unset by (by rewrite Hcfg).
    destruct (outcome_of (getPackage rt fs s)) as [pkg|e] eqn:Hpkg;
      [|by rewrite (getDefaults_throw rt fs s e Hpkg) in Hd].
    destruct (loadFile_again rt fs "package.json" s pkg Hpkg) as [Hagain Hst].
    rewrite (getDefaults_store rt fs s pkg Hpkg) in *.
    fold (getPackage rt fs s) in Hagain, Hst.
    fold (getPackage rt fs (store_of (getPackage rt fs s))) in Hagain, Hst.
    rewrite (getDefaults_store rt fs _ pkg Hagain), Hst. split; [|done].
    rewrite (getDefaults_outcome rt fs _ pkg Hagain).
    rewrite (getDefaults_outcome rt fs s pkg Hpkg) in Hd.
    by rewrite Hroot.
Qed.

Lemma toJSON_reads_only_and_is_stable_witness :
  config (store_of (toJSON Sample.rt Sample.app_disk Sample.fresh))
  = VUndefined /\
  outcome_of (toJSON Sample.rt Sample.app_disk
                (store_of (toJSON Sample.rt Sample.app_disk Sample.fresh)))
  = Ok (VObj Sample.defaults).
Proof.
  destruct (toJSON_reads_only_and_is_stable
              Sample.rt Sample.app_disk Sample.fresh (VObj Sample.defaults))
    as (Hcfg & _ & Hagain & _); [vm_compute; reflexivity|].
  split; [exact Hcfg|exact Hagain].
Defined.

(** ** The adders *)

Lemma addConfig_throw_config rt fs c s e :
  outcome_of (addConfig rt fs c s) = Throw e ->
  config (store_of (addConfig rt fs c s)) = config s /\
  appRoot (store_of (addConfig rt fs c s)) = appRoot s.
Proof.
  destruct (outcome_of (toJSON rt fs s)) as [d|e'] eqn:Hd.
  - by rewrite (addConfig_ok rt fs c s d Hd).
  - rewrite (addConfig_throw rt fs c s e' Hd). intros _.
    destruct (toJSON_reads rt fs s) as [(Hroot & _) Hcfg]. done.
Qed.

(** X11.  An [addConfig], [addFile] or [addString] that throws (the file or
    the text does not parse, or the defaults cannot be computed) leaves the
    accumulated state and the root exactly as they were. *)
Theorem failed_add_keeps_config
        (rt : Runtime) (fs : disk) (c : add_call) (s : Config) (e : error) :
  outcome_of (call_add rt fs c s) = Throw e ->
  config (store_of (call_add rt fs c s)) = config s /\
  appRoot (store_of (call_add rt fs c s)) = appRoot s.
Proof.
  destruct c as [v|path|str]; simpl.
  - apply addConfig_throw_config.
  - unfold addFile.
    destruct (loadFile_reads rt fs path s) as [(Hroot & _) Hcfg].
    destruct (outcome_of (loadFile rt fs path s)) as [v|e'] eqn:Hl.
    + rewrite (bind_ok _ _ _ _ Hl). cbn [outcome_of store_of]. intros Hthrow.
      destruct (addConfig_throw_config rt fs v _ e Hthrow) as [Hc Hr].
      split; congruence.
    + by rewrite (bind_throw _ _ _ _ Hl).
  - unfold addString. destruct (parseFile rt str None) as [v|e'].
    + rewrite bind_lift_ok. apply addConfig_throw_config.
    + by rewrite bind_lift_throw.
Qed.

Lemma failed_add_keeps_config_witness :
  config (store_of (addFile Sample.rt Sample.broken_pkg_disk "a.json"
                            Sample.fresh))
  = VUndefined.
Proof.
  apply (failed_add_keeps_config
           Sample.rt Sample.broken_pkg_disk (AddFile "a.json") Sample.fresh
           (loadError "/app/package.json"
              {| message := "JSON5: invalid end of input at 1:6";
                 fileName := None |})).
  vm_compute. reflexivity.
Defined.

Lemma addScript_on_object rt fs str s (m : gmap string value) :
  outcome_of (toJSON rt fs s) = Ok (VObj m) ->
  config (store_of (addScript rt fs str s))
  = VObj (fst (runInNewContext rt str m)) /\
  outcome_of (addScript rt fs str s)
  = match snd (runInNewContext rt str m) with
    | Some e => Throw e
    | None => Ok tt
    end /\
  fileCache (store_of (addScript rt fs str s))
  = fileCache (store_of (toJSON rt fs s)) /\
  io_of (addScript rt fs str s) = io_of (toJSON rt fs s).
Proof.
  intros Hm. unfold addScript.
  rewrite (bind_ok _ _ _ _ Hm). cbn [outcome_of store_of io_of].
  unfold bind at 1 2 3 4. cbn [set_config outcome_of store_of io_of].
  destruct (runInNewContext rt str m) as [m' [e|]]; simpl;
    by rewrite (right_id [] _).
Qed.





(** ** An invariant of the accumulated state *)

Lemma deepMergeExtend_object_object d src :
  is_object d = true -> is_object src = true ->
  is_object (deepMergeExtend d src) = true.
Proof. by destruct d, src. Qed.

Lemma toJSON_is_object rt fs s d :
  config_unset_or_object s ->
  outcome_of (toJSON rt fs s) = Ok d -> is_object d = true.
Proof.
  intros Hinv. destruct (truthy (config s)) eqn:Hc.
  - rewrite toJSON_set by done. intros [= <-].
    destruct Hinv as [Hu|Ho]; [by rewrite Hu in Hc|done].
  - rewrite toJSON_unset by done.
    by intros (name & version & ->)%getDefaults_object.
Qed.

Lemma addConfig_unset_or_object rt fs c s :
  is_object c = true ->
  config_unset_or_object s ->
  config_unset_or_object (store_of (addConfig rt fs c s)).
Proof.
  intros Hc Hinv. unfold config_unset_or_object.
  destruct (outcome_of (toJSON rt fs s)) as [d|e] eqn:Hd.
  - rewrite (addConfig_ok rt fs c s d Hd). right. simpl.
    apply deepMergeExtend_object_object; [|done].
    by apply (toJSON_is_object rt fs s).
  - rewrite (addConfig_throw rt fs c s e Hd). cbn [store_of].
    destruct (toJSON_reads rt fs s) as [_ ->]. exact Hinv.
Qed.

Lemma invoke_unset_or_object rt fs m s :
  merges_objects rt [(fs, m)] s ->
  config_unset_or_object s -> config_unset_or_object (invoke rt fs m s).
Proof.
  intros [Hfrag _] Hinv.
  assert (forall s', config s' = config s -> config_unset_or_object s')
    as Hsame by (intros s' Hs'; unfold config_unset_or_object; by rewrite Hs').
  destruct m as [path|str|str|c| | |path|]; simpl.
  - unfold addFile.
    destruct (loadFile_reads rt fs path s) as [_ Hcfg].
    destruct (outcome_of (loadFile rt fs path s)) as [v|e] eqn:Hl.
    + rewrite (bind_ok _ _ _ _ Hl). cbn [store_of].
      apply addConfig_unset_or_object; [by apply Hfrag|by apply Hsame].
    + rewrite (bind_throw _ _ _ _ Hl). by apply Hsame.
  - unfold addString. destruct (parseFile rt str None) as [v|e] eqn:Hp.
    + rewrite bind_lift_ok. apply addConfig_unset_or_object; [|done].
      by apply Hfrag.
    + by rewrite bind_lift_throw.
  - destruct (outcome_of (toJSON rt fs s)) as [d|e] eqn:Hd.
    + pose proof (toJSON_is_object rt fs s d Hinv Hd) as Ho.
      destruct d as [| | | | | |m0]; try done.
      destruct (addScript_on_object rt fs str s m0 Hd) as [Hc _].
      right. by rewrite Hc.
    + unfold addScript. rewrite (bind_throw _ _ _ _ Hd). apply Hsame.
      apply (toJSON_reads rt fs s).
  - by apply addConfig_unset_or_object.
  - apply Hsame, (getPackage_reads rt fs s).
  - apply Hsame, (getDefaults_reads rt fs s).
  - apply Hsame, (loadFile_reads rt fs path s).
  - apply Hsame, (toJSON_reads rt fs s).
Qed.

(** X14.  On a store made by the constructor, after any sequence of method
    calls under any disks, returning or throwing, in which every merged
    fragment (the argument of [addConfig], what [addFile] loads, what
    [addString] parses) is an object, [this.config] is either still unset
    or an object: the test [this.config || ...] of [toJSON] is then a test
    for "an [addX] has set the state". *)
Theorem config_is_unset_or_an_object
        (rt : Runtime) (root : option string) (calls : list (disk * method)) :
  merges_objects rt calls (new_Config rt root) ->
  let s := invoke_all rt calls (new_Config rt root) in
  (config s = VUndefined \/ is_object (config s) = true) /\
  (truthy (config s) = true <-> is_object (config s) = true).
Proof.
  intros Hfrags s.
  assert (forall cs s0, merges_objects rt cs s0 ->
                        config_unset_or_object s0 ->
                        config_unset_or_object (invoke_all rt cs s0)) as Hall.
  { induction cs as [|[fs m] rest IH]; intros s0 Hm H0; [done|].
    destruct Hm as [Hfrag Hrest]. simpl.
    apply IH; [done|]. by apply invoke_unset_or_object. }
  assert (config_unset_or_object s) as Hs by (apply Hall; [done|by left]).
  split; [exact Hs|].
  destruct Hs as [Hu|Ho].
  - rewrite Hu. by split.
  - destruct (config s); try done.
Qed.

Lemma config_is_unset_or_an_object_witness :
  is_object
    (config (invoke_all More.rt
               [(Sample.app_disk, MAddFile "a.yaml");
                (Sample.bad_disk, MAddFile "bad.json");
                (Sample.app_disk, MAddScript "port = 8080; boom()")]
               (new_Config More.rt (Some "/app"))))
  = true.
Proof.
  destruct (config_is_unset_or_an_object
              More.rt (Some "/app")
              [(Sample.app_disk, MAddFile "a.yaml");
               (Sample.bad_disk, MAddFile "bad.json");
               (Sample.app_disk, MAddScript "port = 8080; boom()")])
    as [_ [Hiff _]].
  - simpl. repeat split; intros v Hv; vm_compute in Hv;
      first [discriminate | by injection Hv as <-].
  - apply Hiff. vm_compute. reflexivity.
Defined.

(** ** More on [loadFile] and the constructor *)

(** X15.  Every error that [loadFile] throws comes from the read or from
    the parser: the file exists, and either [readFileSync] threw [cause], or
    the content was read and the parser of the path's extension threw
    [cause]; the error thrown has the resolved path as [fileName] and the
    message [Error loading config], the path, a colon and the message of
    [cause].  A [loadFile] that throws has looked for the file and read it,
    and leaves the store, cache included, as it was. *)
Theorem loadFile_failure
        (rt : Runtime) (fs : disk) (p : string) (s : Config) (e : error) :
  outcome_of (loadFile rt fs p s) = Throw e ->
  let path := resolve rt (appRoot s) p in
  (exists cause,
      (fs !! path = Some (Unreadable cause)
       \/ exists content,
            fs !! path = Some (File content) /\
            parseFile rt content (Some (extname rt path)) = Throw cause) /\
      fileName e = Some path /\
      message e = "Error loading config " ++ path ++ ": " ++ message cause) /\
  store_of (loadFile rt fs p s) = s /\
  io_of (loadFile rt fs p s) = [ExistsSync path; ReadFileSync path].
Proof.
  intros Hthrow path. fold path.
  destruct (truthy (slot_value (fileCache s !! path))) eqn:Hc.
  - by rewrite loadFile_hit in Hthrow.
  - rewrite loadFile_miss in * by done. fold path in Hthrow |- *.
    unfold loadFromDisk, disk_io in *.
    destruct (fs !! path) as [[content|cause]|]; [| |done].
    + destruct (parseFile rt content (Some (extname rt path)))
        as [v|cause] eqn:Hparse; [done|].
      simpl in *. injection Hthrow as <-.
      split; [|done]. exists cause. split; [right; by exists content|done].
    + simpl in *. injection Hthrow as <-.
      split; [|done]. exists cause. split; [by left|done].
Qed.

Lemma loadFile_failure_witness :
  store_of (loadFile Sample.rt Sample.bad_disk "bad.json" Sample.fresh)
  = Sample.fresh.
Proof.
  apply (loadFile_failure
           Sample.rt Sample.bad_disk "bad.json" Sample.fresh
           (loadError "/app/bad.json"
              {| message := "JSON5: invalid end of input at 1:6";
                 fileName := None |})).
  vm_compute. reflexivity.
Defined.

(** X16.  What [loadFile] returns is what the cache holds for the resolved
    path afterwards, for every returned value (a falsy one too). *)
Theorem loadFile_result_is_cached
        (rt : Runtime) (fs : disk) (p : string) (s : Config) (v : value) :
  outcome_of (loadFile rt fs p s) = Ok v ->
  fileCache (store_of (loadFile rt fs p s)) !! resolve rt (appRoot s) p
  = Some v.
Proof.
  destruct (truthy (slot_value (fileCache s !! resolve rt (appRoot s) p)))
    eqn:Hc.
  - rewrite loadFile_hit by done. simpl. intros [= <-].
    by destruct (fileCache s !! resolve rt (appRoot s) p).
  - rewrite loadFile_miss by done.
    destruct (loadFromDisk rt fs _) as [w|e]; [|done].
    simpl. intros [= ->]. apply lookup_insert_eq.
Qed.

Lemma loadFile_result_is_cached_witness :
  fileCache (store_of (loadFile Sample.rt Sample.bad_disk "empty.yaml"
                                Sample.fresh))
  !! "/app/empty.yaml"
  = Some VUndefined.
Proof.
  apply (loadFile_result_is_cached
           Sample.rt Sample.bad_disk "empty.yaml" Sample.fresh VUndefined).
  vm_compute. reflexivity.
Defined.

Lemma invoke_all_agrees rt fs (ms : list method) :
  forall s, cache_agrees rt fs s ->
            cache_agrees rt fs (invoke_all rt (map (pair fs) ms) s) /\
            appRoot (invoke_all rt (map (pair fs) ms) s) = appRoot s.
Proof.
  induction ms as [|m rest IH]; intros s Hag; [done|].
  simpl. destruct (invoke_evolves rt fs m s) as (Hroot & _ & Hag').
  destruct (IH (invoke rt fs m s) (Hag' Hag)) as [Hag2 Hroot2].
  split; [done|congruence].
Qed.

(** X17.  As long as the disk does not change, the cache cannot be seen in
    the results: on a store made by the constructor, when the name and the
    version of the package metadata are not objects or arrays (so that the
    accumulated state shares nothing with the cache), after any sequence of
    method calls [loadFile] of any path returns, or throws, exactly what it
    does on a new store. *)
Theorem cache_is_transparent_on_unchanged_disk
        (rt : Runtime) (fs : disk) (root : option string) (ms : list method)
        (p : string) :
  (forall pkg name version,
      outcome_of (loadFile rt fs "package.json" (new_Config rt root)) = Ok pkg ->
      getProp pkg "name" = Ok name ->
      getProp pkg "version" = Ok version ->
      is_primitive name = true /\ is_primitive version = true) ->
  outcome_of (loadFile rt fs p
                (invoke_all rt (map (pair fs) ms) (new_Config rt root)))
  = outcome_of (loadFile rt fs p (new_Config rt root)).
Proof.
  intros _.
  destruct (invoke_all_agrees rt fs ms (new_Config rt root)
              (cache_agrees_new_Config rt fs root)) as [Hag Hroot].
  rewrite (loadFile_agrees rt fs p _ Hag), Hroot.
  symmetry. apply loadFile_agrees, cache_agrees_new_Config.
Qed.

Lemma cache_is_transparent_on_unchanged_disk_witness :
  outcome_of (loadFile Sample.rt Sample.bad_disk "empty.yaml"
                (invoke_all Sample.rt
                   (map (pair Sample.bad_disk)
                        [MAddFile "empty.yaml"; MAddFile "bad.json";
                         MAddConfig (VObj Sample.db_first)])
                   (new_Config Sample.rt (Some "/app"))))
  = outcome_of (loadFile Sample.rt Sample.bad_disk "empty.yaml"
                         (new_Config Sample.rt (Some "/app"))).
Proof.
  apply (cache_is_transparent_on_unchanged_disk
           Sample.rt Sample.bad_disk (Some "/app")
           [MAddFile "empty.yaml"; MAddFile "bad.json";
            MAddConfig (VObj Sample.db_first)] "empty.yaml").
  intros pkg name version Hpkg. vm_compute in Hpkg. injection Hpkg as <-.
  intros Hname Hversion. vm_compute in Hname, Hversion.
  injection Hname as <-. injection Hversion as <-. by split.
Defined.

(** X18.  A root that is absent or the empty string is replaced by the
    application root of [app-root-path]: files are resolved against it, and
    the [APP_ROOT] of the snapshot of the new store is that path. *)
Theorem absent_root_is_appRootPath
        (rt : Runtime) (fs : disk) (root : option string) (d : value) :
  root = None \/ root = Some "" ->
  outcome_of (toJSON rt fs (new_Config rt root)) = Ok d ->
  appRoot (new_Config rt root) = appRootPath rt /\
  exists m : gmap string value,
    d = VObj m /\ m !! "APP_ROOT" = Some (VStr (appRootPath rt)).
Proof.
  intros Hroot Hd.
  assert (appRoot (new_Config rt root) = appRootPath rt) as Happ
    by (by destruct Hroot as [-> | ->]).
  split; [done|].
  rewrite toJSON_unset in Hd by done.
  apply getDefaults_object in Hd as (name & version & ->).
  eexists. split; [done|]. by rewrite Happ.
Qed.

Lemma absent_root_is_appRootPath_witness :
  appRoot (new_Config Sample.rt (Some "")) = "/srv".
Proof.
  apply (absent_root_is_appRootPath
           Sample.rt More.no_pkg_disk (Some "")
           (VObj (<["APP_NAME" := VUndefined]>
                  (<["APP_VERSION" := VUndefined]>
                   {["APP_ROOT" := VStr "/srv"]})))).
  - by right.
  - vm_compute. reflexivity.
Defined.
